(** * MaxDefense: the simulation core of [src/App.tsx]

    A shallow embedding of the game logic of the React component [App]:
    the per-frame [update], the click handler [handleCanvasClick],
    [spawnRocket] and [startGame], followed by the properties of the
    simulation that the specification states.

    Modelling conventions.
    - A JavaScript [number] is modelled as a real number ([R]); rounding,
      infinities and NaN are not modelled.  [Math.sqrt], [Math.abs] and
      [Math.pow(_, 2)] are [sqrt], [Rabs] and [_ ^ 2].
    - A division whose divisor is zero is flagged: it makes the enclosing
      function return [Err DivByZero] (JavaScript would produce an infinity
      or NaN there).  Reading a property of [undefined] makes it return
      [Err TypeError] (JavaScript throws).
    - [Math.random()] reads an oracle [Math_random : nat -> number] at the
      position [rng] of the state and advances [rng].
    - The arrays held in [useRef] cells are lists; [forEach] with a callback
      that calls [splice(index, 1)] on the array under iteration is modelled
      index by index, as ECMAScript defines it.
    - The values held in [useState] cells ([gameState], [score], [ammo]) are
      read from the closure of the current render; [setScore], [setGameState]
      and [setAmmo] act on the value of the next render.  A frame is one
      call of [update] together with the render that follows it: the model
      takes that render to be over before the next frame or click.
    - Drawing, the markup and the language switch are left out. *)

From Stdlib Require Import Reals Lra Lia ZArith.
From stdpp Require Import base decidable option list strings.

Open Scope R_scope.

(** ** Numbers *)

Definition number := R.

#[global] Instance Rlt_decision : RelDecision Rlt := Rlt_dec.
#[global] Instance Rle_decision : RelDecision Rle := Rle_dec.
#[global] Instance Rgt_decision : RelDecision Rgt := Rgt_dec.
#[global] Instance Rge_decision : RelDecision Rge := Rge_dec.
#[global] Instance Req_decision : EqDecision R := Req_dec_T.

(** ** Faults and the result monad *)

Inductive Fault := DivByZero | TypeError.

Inductive Result (A : Type) :=
| Ok (a : A)
| Err (e : Fault).
Arguments Ok {A} a.
Arguments Err {A} e.

#[global] Instance Result_bind : MBind Result := fun A B k m =>
  match m with
  | Ok a => k a
  | Err e => Err e
  end.

(** [a / b], flagged when [b] is zero. *)
Definition div (a b : number) : Result number :=
  if decide (b = 0) then Err DivByZero else Ok (a / b).

(** ** [Array.prototype.forEach] over an array that the callback splices

    [arr.forEach((x, index) => ...)] reads the length once, then for every
    index [k] below it that is still present calls the callback on [arr[k]].
    The callbacks of [update] either mutate the visited object in place
    (modelled by the callback returning [Some x'], written back at [k]) or
    remove it with [arr.splice(index, 1)] (modelled by [None], which deletes
    position [k]).  [S] is the state the callback works on besides the array
    under iteration, which no callback of [update] reads or writes
    otherwise. *)

Section ForEach.
Context {A S : Type}.
Variable cb : A -> S -> Result (option A * S).

Fixpoint forEach_from (n k : nat) (arr : list A) (s : S)
  : Result (list A * S) :=
  match n with
  | O => Ok (arr, s)
  | Datatypes.S n' =>
      match arr !! k with
      | None => forEach_from n' (Datatypes.S k) arr s
      | Some x =>
          '(r, s') ← cb x s;
          match r with
          | Some x' => forEach_from n' (Datatypes.S k) (<[k:=x']> arr) s'
          | None => forEach_from n' (Datatypes.S k) (delete k arr) s'
          end
      end
  end.

Definition forEach (arr : list A) (s : S) : Result (list A * S) :=
  forEach_from (length arr) 0 arr s.

(** The same traversal by recursion on the list: after a removal the
    element that slides into the freed position is not visited. *)
Fixpoint forEach_struct (arr : list A) (s : S) : Result (list A * S) :=
  match arr with
  | [] => Ok ([], s)
  | x :: rest =>
      '(r, s') ← cb x s;
      match r with
      | Some x' =>
          '(rest', s'') ← forEach_struct rest s';
          Ok (x' :: rest', s'')
      | None =>
          match rest with
          | [] => Ok ([], s')
          | y :: rest' =>
              '(rest'', s'') ← forEach_struct rest' s';
              Ok (y :: rest'', s'')
          end
      end
  end.
End ForEach.

(** ** Constants *)

Definition CANVAS_WIDTH : number := 800.
Definition CANVAS_HEIGHT : number := 600.
Definition ROCKET_SPEED_MIN : number := 0.25.
Definition ROCKET_SPEED_MAX : number := 0.75.
Definition MISSILE_SPEED : number := 7.
Definition EXPLOSION_RADIUS_MAX : number := 40.
Definition EXPLOSION_GROWTH_RATE : number := 1.5.
Definition SCORE_PER_ROCKET : number := 20.
Definition WIN_SCORE : number := 1000.

(** ** Entities

    The [id] of an entity is the draw of [Math.random()] it is printed from
    and the [color] of a rocket is its hue; neither is read by the logic. *)

Module Rocket.
Record t := mk {
  id : number; x : number; y : number;
  targetX : number; targetY : number;
  speed : number; color : number }.
Definition move_to (x' y' : number) (r : t) : t :=
  mk (id r) x' y' (targetX r) (targetY r) (speed r) (color r).
End Rocket.

Module Missile.
Record t := mk {
  id : number; x : number; y : number;
  destX : number; destY : number;
  startX : number; startY : number }.
Definition aim_at (destX' destY' : number) (m : t) : t :=
  mk (id m) (x m) (y m) destX' destY' (startX m) (startY m).
Definition move_to (x' y' : number) (m : t) : t :=
  mk (id m) x' y' (destX m) (destY m) (startX m) (startY m).
End Missile.

Module Explosion.
Record t := mk {
  id : number; x : number; y : number;
  radius : number; growing : bool }.
Definition set_radius (r : number) (e : t) : t :=
  mk (id e) (x e) (y e) r (growing e).
Definition set_growing (g : bool) (e : t) : t :=
  mk (id e) (x e) (y e) (radius e) g.
End Explosion.

Module Battery.
Record t := mk {
  x : number; y : number;
  ammo : number; maxAmmo : number; destroyed : bool }.
Definition destroy (b : t) : t := mk (x b) (y b) 0 (maxAmmo b) true.
Definition set_ammo (a : number) (b : t) : t :=
  mk (x b) (y b) a (maxAmmo b) (destroyed b).
End Battery.

Module City.
Record t := mk { x : number; y : number; destroyed : bool }.
Definition destroy (c : t) : t := mk (x c) (y c) true.
End City.

Inductive GameState := menu | playing | won | lost.

#[global] Instance GameState_eq_dec : EqDecision GameState.
Proof. solve_decision. Defined.

Record Ammo := mkAmmo { left : number; center : number; right : number }.

(** The state of the component: the three [useState] cells the logic uses,
    the five [useRef] stores, the number of [Math.random()] draws taken so
    far and the number of confetti bursts fired so far. *)
Record State := mkState {
  gameState : GameState;
  score : number;
  ammo : Ammo;
  rockets : list Rocket.t;
  missiles : list Missile.t;
  explosions : list Explosion.t;
  batteries : list Battery.t;
  cities : list City.t;
  rng : nat;
  confetti : nat }.

Definition set_gameState (g : GameState) (w : State) : State :=
  mkState g (score w) (ammo w) (rockets w) (missiles w) (explosions w)
    (batteries w) (cities w) (rng w) (confetti w).
Definition set_score (v : number) (w : State) : State :=
  mkState (gameState w) v (ammo w) (rockets w) (missiles w) (explosions w)
    (batteries w) (cities w) (rng w) (confetti w).
Definition set_ammo (a : Ammo) (w : State) : State :=
  mkState (gameState w) (score w) a (rockets w) (missiles w) (explosions w)
    (batteries w) (cities w) (rng w) (confetti w).
Definition set_rockets (l : list Rocket.t) (w : State) : State :=
  mkState (gameState w) (score w) (ammo w) l (missiles w) (explosions w)
    (batteries w) (cities w) (rng w) (confetti w).
Definition set_missiles (l : list Missile.t) (w : State) : State :=
  mkState (gameState w) (score w) (ammo w) (rockets w) l (explosions w)
    (batteries w) (cities w) (rng w) (confetti w).
Definition set_explosions (l : list Explosion.t) (w : State) : State :=
  mkState (gameState w) (score w) (ammo w) (rockets w) (missiles w) l
    (batteries w) (cities w) (rng w) (confetti w).
Definition set_batteries (l : list Battery.t) (w : State) : State :=
  mkState (gameState w) (score w) (ammo w) (rockets w) (missiles w)
    (explosions w) l (cities w) (rng w) (confetti w).
Definition set_cities (l : list City.t) (w : State) : State :=
  mkState (gameState w) (score w) (ammo w) (rockets w) (missiles w)
    (explosions w) (batteries w) l (rng w) (confetti w).
Definition set_rng (n : nat) (w : State) : State :=
  mkState (gameState w) (score w) (ammo w) (rockets w) (missiles w)
    (explosions w) (batteries w) (cities w) n (confetti w).
Definition fire_confetti (w : State) : State :=
  mkState (gameState w) (score w) (ammo w) (rockets w) (missiles w)
    (explosions w) (batteries w) (cities w) (rng w) (Datatypes.S (confetti w)).

(** The stores as the [useRef] initialisers and [startGame] write them. *)
Definition initial_batteries : list Battery.t :=
  [ Battery.mk 50 (CANVAS_HEIGHT - 20) 20 20 false;
    Battery.mk (CANVAS_WIDTH / 2) (CANVAS_HEIGHT - 20) 40 40 false;
    Battery.mk (CANVAS_WIDTH - 50) (CANVAS_HEIGHT - 20) 20 20 false ].

Definition initial_cities : list City.t :=
  [ City.mk 150 (CANVAS_HEIGHT - 15) false;
    City.mk 250 (CANVAS_HEIGHT - 15) false;
    City.mk 350 (CANVAS_HEIGHT - 15) false;
    City.mk 450 (CANVAS_HEIGHT - 15) false;
    City.mk 550 (CANVAS_HEIGHT - 15) false;
    City.mk 650 (CANVAS_HEIGHT - 15) false ].

(** The component as first rendered. *)
Definition initial_state : State :=
  mkState menu 0 (mkAmmo 20 40 20) [] [] [] initial_batteries initial_cities
    O O.

(** [startGame]: [setAmmo] is not called, the ammo cell keeps its value. *)
Definition startGame (s : State) : State :=
  mkState playing 0 (ammo s) [] [] [] initial_batteries initial_cities
    (rng s) (confetti s).

(** ** Game logic *)

(** [Math.abs(p.x - targetX) < 5 && Math.abs(p.y - targetY) < 5] *)
Definition hit (px py tx ty : number) : bool :=
  bool_decide (Rabs (px - tx) < 5) && bool_decide (Rabs (py - ty) < 5).

(** The scan of [handleCanvasClick] for the nearest battery with ammo:
    [minDist] starts at [Infinity] ([None]) and [nearestBattery] refers to
    an object of the store, kept here with its index; [index] counts the
    batteries visited. *)
Record Nearest := mkNearest {
  index : nat;
  minDist : option number;
  nearestBattery : option (nat * Battery.t) }.

Definition closer (d : number) (m : option number) : bool :=
  match m with
  | None => true
  | Some m => bool_decide (d < m)
  end.

Definition scan_battery (x : number) (acc : Nearest) (b : Battery.t)
  : Nearest :=
  if negb (Battery.destroyed b) && bool_decide (Battery.ammo b > 0) then
    let d := Rabs (Battery.x b - x) in
    if closer d (minDist acc)
    then mkNearest (Datatypes.S (index acc)) (Some d) (Some (index acc, b))
    else mkNearest (Datatypes.S (index acc)) (minDist acc) (nearestBattery acc)
  else mkNearest (Datatypes.S (index acc)) (minDist acc) (nearestBattery acc).

Definition find_nearest_battery (x : number) (bs : list Battery.t)
  : option (nat * Battery.t) :=
  nearestBattery (foldl (scan_battery x) (mkNearest O None None) bs).

(** The scan of the missile update for the nearest rocket in range. *)
Definition scan_rocket (mx my : number)
  (acc : number * option Rocket.t) (r : Rocket.t)
  : number * option Rocket.t :=
  let d := sqrt ((Rocket.x r - mx) ^ 2 + (Rocket.y r - my) ^ 2) in
  if decide (d < fst acc) then (d, Some r) else acc.

Definition find_nearest_rocket (mx my : number) (rs : list Rocket.t)
  : option Rocket.t :=
  snd (foldl (scan_rocket mx my) (300, None) rs).

(** A pointer event on the canvas, with the bounding rectangle of the
    canvas at that moment. *)
Record Click := mkClick {
  clientX : number; clientY : number;
  rect_left : number; rect_top : number;
  rect_width : number; rect_height : number }.

Section Game.
Variable Math_random : nat -> number.

(** [Math.random()] *)
Definition random (w : State) : number * State :=
  (Math_random (rng w), set_rng (Datatypes.S (rng w)) w).

Definition spawnRocket (w : State) : Result State :=
  let targets :=
    map (fun b => (Battery.x b, Battery.y b))
        (List.filter (fun b => negb (Battery.destroyed b)) (batteries w)) ++
    map (fun c => (City.x c, City.y c))
        (List.filter (fun c => negb (City.destroyed c)) (cities w)) in
  if decide (length targets = O) then Ok w
  else
    let '(r1, w) := random w in
    let i := Int_part (r1 * INR (length targets)) in
    let '(r2, w) := random w in
    let startX := r2 * CANVAS_WIDTH in
    let '(r3, w) := random w in
    match (if decide (0 <= i)%Z then targets !! Z.to_nat i else None) with
    | None => Err TypeError
    | Some target =>
        let '(r4, w) := random w in
        let '(r5, w) := random w in
        Ok (set_rockets
              (rockets w ++
               [Rocket.mk r3 startX 0 (fst target) (snd target)
                  (ROCKET_SPEED_MIN +
                   r4 * (ROCKET_SPEED_MAX - ROCKET_SPEED_MIN))
                  (r5 * 60 + 0)]) w)
    end.

(** The callback of [rocketsRef.current.forEach] in step 1. *)
Definition update_rocket (rocket : Rocket.t) (w : State)
  : Result (option Rocket.t * State) :=
  let dx := Rocket.targetX rocket - Rocket.x rocket in
  let dy := Rocket.targetY rocket - Rocket.y rocket in
  let distance := sqrt (dx * dx + dy * dy) in
  if decide (distance < 2) then
    let '(r, w) := random w in
    let w := set_explosions
      (explosions w ++
       [Explosion.mk r (Rocket.x rocket) (Rocket.y rocket) 2 true]) w in
    let w := set_batteries
      (map (fun b =>
              if hit (Battery.x b) (Battery.y b)
                     (Rocket.targetX rocket) (Rocket.targetY rocket)
              then Battery.destroy b else b) (batteries w)) w in
    let w := set_cities
      (map (fun c =>
              if hit (City.x c) (City.y c)
                     (Rocket.targetX rocket) (Rocket.targetY rocket)
              then City.destroy c else c) (cities w)) w in
    Ok (None, w)
  else
    ux ← div dx distance;
    let x' := Rocket.x rocket + ux * Rocket.speed rocket in
    uy ← div dy distance;
    let y' := Rocket.y rocket + uy * Rocket.speed rocket in
    Ok (Some (Rocket.move_to x' y' rocket), w).

(** The callback of [missilesRef.current.forEach] in step 2. *)
Definition update_missile (missile : Missile.t) (w : State)
  : Result (option Missile.t * State) :=
  let missile :=
    match find_nearest_rocket (Missile.x missile) (Missile.y missile)
            (rockets w) with
    | Some nearestRocket =>
        Missile.aim_at (Rocket.x nearestRocket) (Rocket.y nearestRocket)
          missile
    | None => missile
    end in
  let dx := Missile.destX missile - Missile.x missile in
  let dy := Missile.destY missile - Missile.y missile in
  let distance := sqrt (dx * dx + dy * dy) in
  if decide (distance < MISSILE_SPEED) then
    let '(r, w) := random w in
    let w := set_explosions
      (explosions w ++
       [Explosion.mk r (Missile.destX missile) (Missile.destY missile)
          2 true]) w in
    Ok (None, w)
  else
    ux ← div dx distance;
    let x' := Missile.x missile + ux * MISSILE_SPEED in
    uy ← div dy distance;
    let y' := Missile.y missile + uy * MISSILE_SPEED in
    Ok (Some (Missile.move_to x' y' missile), w).

(** The callback of the inner [rocketsRef.current.forEach] of step 3;
    [setScore(prev => prev + SCORE_PER_ROCKET)] adds to the score of the
    next render. *)
Definition collide (exp : Explosion.t) (rocket : Rocket.t) (w : State)
  : Result (option Rocket.t * State) :=
  let dx := Rocket.x rocket - Explosion.x exp in
  let dy := Rocket.y rocket - Explosion.y exp in
  let dist := sqrt (dx * dx + dy * dy) in
  if decide (dist < Explosion.radius exp)
  then Ok (None, set_score (score w + SCORE_PER_ROCKET) w)
  else Ok (Some rocket, w).

(** The radius and phase of an explosion after one visit, and whether the
    visit splices it out of the store. *)
Definition grow (exp : Explosion.t) : Explosion.t * bool :=
  if Explosion.growing exp then
    let exp :=
      Explosion.set_radius (Explosion.radius exp + EXPLOSION_GROWTH_RATE)
        exp in
    if decide (Explosion.radius exp >= EXPLOSION_RADIUS_MAX)
    then (Explosion.set_growing false exp, false)
    else (exp, false)
  else
    let exp :=
      Explosion.set_radius (Explosion.radius exp - EXPLOSION_GROWTH_RATE)
        exp in
    (exp, bool_decide (Explosion.radius exp <= 0)).

(** The callback of [explosionsRef.current.forEach] in step 3. *)
Definition update_explosion (exp : Explosion.t) (w : State)
  : Result (option Explosion.t * State) :=
  let '(exp, removed) := grow exp in
  '(rs, w) ← forEach (collide exp) (rockets w) w;
  Ok (if removed then None else Some exp, set_rockets rs w).

(** Step 5 and the ammo read-out; [s] is the render the callback closes
    over, [w] the state being built. *)
Definition check_win_loss (s w : State) : Result State :=
  let w :=
    if decide (score s >= WIN_SCORE)
    then fire_confetti (set_gameState won w) else w in
  let allBatteriesDestroyed := forallb Battery.destroyed (batteries w) in
  let w := if allBatteriesDestroyed then set_gameState lost w else w in
  match batteries w !! O, batteries w !! 1%nat, batteries w !! 2%nat with
  | Some b0, Some b1, Some b2 =>
      Ok (set_ammo
            (mkAmmo (Battery.ammo b0) (Battery.ammo b1) (Battery.ammo b2)) w)
  | _, _, _ => Err TypeError
  end.

(** Steps 1 to 4 of [update]. *)
Definition update_rockets (w : State) : Result State :=
  '(rs, w) ← forEach update_rocket (rockets w) w;
  Ok (set_rockets rs w).

Definition update_missiles (w : State) : Result State :=
  '(ms, w) ← forEach update_missile (missiles w) w;
  Ok (set_missiles ms w).

Definition update_explosions (w : State) : Result State :=
  '(es, w) ← forEach update_explosion (explosions w) w;
  Ok (set_explosions es w).

Definition spawn_rockets (s w : State) : Result State :=
  let '(r, w) := random w in
  if decide (r < 0.015 + score s / 10000) then spawnRocket w else Ok w.

(** One animation frame: [update], followed by the render that commits
    the [useState] cells.  [s] is the render the callback closes over:
    [gameState s] and [score s] are what it reads as [gameState] and
    [score]. *)
Definition update (s : State) : Result State :=
  if decide (gameState s <> playing) then Ok s
  else
    w ← update_rockets s;
    w ← update_missiles w;
    w ← update_explosions w;
    w ← spawn_rockets s w;
    check_win_loss s w.

(** The second half of [handleCanvasClick], from the point [(x, y)] in
    canvas coordinates on: the search for the nearest battery with ammo and
    the launch. *)
Definition fire (x y : number) (s : State) : State :=
  match find_nearest_battery x (batteries s) with
  | Some (i, nearestBattery) =>
      let w := set_batteries
        (<[i := Battery.set_ammo (Battery.ammo nearestBattery - 1)
                  nearestBattery]> (batteries s)) s in
      let '(r, w) := random w in
      set_missiles
        (missiles w ++
         [Missile.mk r (Battery.x nearestBattery)
            (Battery.y nearestBattery) x y
            (Battery.x nearestBattery) (Battery.y nearestBattery)]) w
  | None => s
  end.

Definition handleCanvasClick (e : Click) (s : State) : Result State :=
  if decide (gameState s <> playing) then Ok s
  else
    scaleX ← div CANVAS_WIDTH (rect_width e);
    scaleY ← div CANVAS_HEIGHT (rect_height e);
    let x := (clientX e - rect_left e) * scaleX in
    let y := (clientY e - rect_top e) * scaleY in
    Ok (fire x y s).
End Game.

(** ** Drawing

    [draw] only issues commands to the 2D context of the canvas; it is
    modelled by the list of the commands it issues, in order.  The colour of
    a rocket is kept as its hue, and the fill style [Gradient] stands for
    the gradient object created last. *)

Module Canvas.
Inductive Style :=
| Color (c : string)
| Hsl (hue : number)
| Gradient.

Inductive Cmd :=
| clearRect (x y w h : number)
| fillStyle (s : Style)
| strokeStyle (s : Style)
| lineWidth (w : number)
| fillRect (x y w h : number)
| beginPath
| moveTo (x y : number)
| lineTo (x y : number)
| stroke
| fill
| arc (x y radius startAngle endAngle : number) (counterclockwise : bool)
| createRadialGradient (x0 y0 r0 x1 y1 r1 : number)
| addColorStop (offset : number) (c : string).
End Canvas.

(** [arr.forEach] with a callback that only draws. *)
Fixpoint draw_each {A : Type} (f : A -> Result (list Canvas.Cmd))
  (l : list A) : Result (list Canvas.Cmd) :=
  match l with
  | [] => Ok []
  | a :: l' =>
      cmds ← f a;
      rest ← draw_each f l';
      Ok (cmds ++ rest)
  end.

Definition draw_rocket (r : Rocket.t) : Result (list Canvas.Cmd) :=
  Ok [ Canvas.beginPath;
       Canvas.moveTo (Rocket.x r) (Rocket.y r);
       Canvas.lineTo
         (Rocket.x r - (Rocket.targetX r - Rocket.x r) * 0.05)
         (Rocket.y r - (Rocket.targetY r - Rocket.y r) * 0.05);
       Canvas.strokeStyle (Canvas.Hsl (Rocket.color r));
       Canvas.lineWidth 2;
       Canvas.stroke;
       Canvas.fillStyle (Canvas.Hsl (Rocket.color r));
       Canvas.beginPath;
       Canvas.arc (Rocket.x r) (Rocket.y r) 3 0 (PI * 2) false;
       Canvas.fill ].

Definition draw_missile (m : Missile.t) : Result (list Canvas.Cmd) :=
  Ok [ Canvas.beginPath;
       Canvas.moveTo (Missile.startX m) (Missile.startY m);
       Canvas.lineTo (Missile.x m) (Missile.y m);
       Canvas.strokeStyle (Canvas.Color "#fff");
       Canvas.lineWidth 1;
       Canvas.stroke;
       Canvas.fillStyle (Canvas.Color "#fff");
       Canvas.beginPath;
       Canvas.arc (Missile.x m) (Missile.y m) 2 0 (PI * 2) false;
       Canvas.fill;
       Canvas.strokeStyle (Canvas.Color "#f00");
       Canvas.lineWidth 1;
       Canvas.beginPath;
       Canvas.moveTo (Missile.destX m - 5) (Missile.destY m - 5);
       Canvas.lineTo (Missile.destX m + 5) (Missile.destY m + 5);
       Canvas.moveTo (Missile.destX m + 5) (Missile.destY m - 5);
       Canvas.lineTo (Missile.destX m - 5) (Missile.destY m + 5);
       Canvas.stroke ].

Definition draw_explosion (e : Explosion.t) : Result (list Canvas.Cmd) :=
  Ok [ Canvas.createRadialGradient
         (Explosion.x e) (Explosion.y e) 0
         (Explosion.x e) (Explosion.y e) (Explosion.radius e);
       Canvas.addColorStop 0 "rgba(255, 255, 255, 0.9)";
       Canvas.addColorStop 0.4 "rgba(255, 200, 0, 0.7)";
       Canvas.addColorStop 1 "rgba(255, 0, 0, 0)";
       Canvas.fillStyle Canvas.Gradient;
       Canvas.beginPath;
       Canvas.arc (Explosion.x e) (Explosion.y e) (Explosion.radius e)
         0 (PI * 2) false;
       Canvas.fill ].

Definition draw_battery (b : Battery.t) : Result (list Canvas.Cmd) :=
  if negb (Battery.destroyed b) then
    ammoPct ← div (Battery.ammo b) (Battery.maxAmmo b);
    Ok [ Canvas.fillStyle (Canvas.Color "#4ade80");
         Canvas.beginPath;
         Canvas.moveTo (Battery.x b - 20) (Battery.y b + 20);
         Canvas.lineTo (Battery.x b) (Battery.y b - 10);
         Canvas.lineTo (Battery.x b + 20) (Battery.y b + 20);
         Canvas.fill;
         Canvas.fillStyle (Canvas.Color "#333");
         Canvas.fillRect (Battery.x b - 15) (Battery.y b + 10) 30 4;
         Canvas.fillStyle
           (Canvas.Color
              (if decide (ammoPct > 0.3) then "#4ade80" else "#ef4444"));
         Canvas.fillRect (Battery.x b - 15) (Battery.y b + 10)
           (30 * ammoPct) 4 ]
  else
    Ok [ Canvas.fillStyle (Canvas.Color "#333");
         Canvas.beginPath;
         Canvas.arc (Battery.x b) (Battery.y b + 10) 15 0 PI true;
         Canvas.fill ].

Definition draw_city (c : City.t) : Result (list Canvas.Cmd) :=
  if negb (City.destroyed c) then
    Ok [ Canvas.fillStyle (Canvas.Color "#60a5fa");
         Canvas.fillRect (City.x c - 15) (City.y c - 15) 30 15;
         Canvas.fillStyle (Canvas.Color "#1e40af");
         Canvas.fillRect (City.x c - 10) (City.y c - 10) 5 5;
         Canvas.fillRect (City.x c + 5) (City.y c - 10) 5 5 ]
  else
    Ok [ Canvas.fillStyle (Canvas.Color "#444");
         Canvas.fillRect (City.x c - 15) (City.y c - 5) 30 5 ].

Definition draw (s : State) : Result (list Canvas.Cmd) :=
  rs ← draw_each draw_rocket (rockets s);
  ms ← draw_each draw_missile (missiles s);
  es ← draw_each draw_explosion (explosions s);
  bs ← draw_each draw_battery (batteries s);
  cs ← draw_each draw_city (cities s);
  Ok ([ Canvas.clearRect 0 0 CANVAS_WIDTH CANVAS_HEIGHT;
        Canvas.fillStyle (Canvas.Color "#050505");
        Canvas.fillRect 0 0 CANVAS_WIDTH CANVAS_HEIGHT;
        Canvas.fillStyle (Canvas.Color "#222");
        Canvas.fillRect 0 (CANVAS_HEIGHT - 20) CANVAS_WIDTH 20 ]
      ++ rs ++ ms ++ es ++ bs ++ cs).

(** [loop], with the canvas and its context present: one [update], then
    one [draw] of the stores as [update] left them. *)
Definition loop (Math_random : nat -> number) (s : State)
  : Result (State * list Canvas.Cmd) :=
  s' ← update Math_random s;
  cmds ← draw s';
  Ok (s', cmds).

(** ** Notions the properties are stated with *)

(** The contract of [Math.random()]. *)
Definition random_in_range (f : nat -> number) : Prop :=
  forall n, 0 <= f n < 1.

(** The distance of a rocket to its target, as step 1 computes it. *)
Definition rocket_distance (r : Rocket.t) : number :=
  let dx := Rocket.targetX r - Rocket.x r in
  let dy := Rocket.targetY r - Rocket.y r in
  sqrt (dx * dx + dy * dy).

(** The same rocket at another position. *)
Definition same_flight (r r' : Rocket.t) : Prop :=
  Rocket.id r' = Rocket.id r /\
  Rocket.targetX r' = Rocket.targetX r /\
  Rocket.targetY r' = Rocket.targetY r /\
  Rocket.speed r' = Rocket.speed r /\
  Rocket.color r' = Rocket.color r.

(** What the callback of step 1 does at an impact. *)
Definition impact (Math_random : nat -> number)
  (rocket : Rocket.t) (w : State) : State :=
  set_cities
    (map (fun c =>
            if hit (City.x c) (City.y c)
                 (Rocket.targetX rocket) (Rocket.targetY rocket)
            then City.destroy c else c) (cities w))
    (set_batteries
       (map (fun b =>
               if hit (Battery.x b) (Battery.y b)
                    (Rocket.targetX rocket) (Rocket.targetY rocket)
               then Battery.destroy b else b) (batteries w))
       (set_explosions
          (explosions w ++
           [Explosion.mk (Math_random (rng w))
              (Rocket.x rocket) (Rocket.y rocket) 2 true])
          (set_rng (Datatypes.S (rng w)) w))).

(** Where the callback of step 1 moves a rocket in flight. *)
Definition advance (rocket : Rocket.t) : Rocket.t :=
  let dx := Rocket.targetX rocket - Rocket.x rocket in
  let dy := Rocket.targetY rocket - Rocket.y rocket in
  Rocket.move_to
    (Rocket.x rocket + dx / rocket_distance rocket * Rocket.speed rocket)
    (Rocket.y rocket + dy / rocket_distance rocket * Rocket.speed rocket)
    rocket.

(** The distance of a missile to its destination, as step 2 computes it. *)
Definition missile_distance (m : Missile.t) : number :=
  let dx := Missile.destX m - Missile.x m in
  let dy := Missile.destY m - Missile.y m in
  sqrt (dx * dx + dy * dy).

(** The distance of a rocket to a missile, as the heat-seeking scan
    computes it. *)
Definition seek_distance (m : Missile.t) (r : Rocket.t) : number :=
  sqrt ((Rocket.x r - Missile.x m) ^ 2 + (Rocket.y r - Missile.y m) ^ 2).

(** A missile after the heat-seeking part of the callback of step 2. *)
Definition reaim (rs : list Rocket.t) (missile : Missile.t) : Missile.t :=
  match find_nearest_rocket (Missile.x missile) (Missile.y missile) rs with
  | Some nearestRocket =>
      Missile.aim_at (Rocket.x nearestRocket) (Rocket.y nearestRocket) missile
  | None => missile
  end.

(** Where the callback of step 2 moves a missile in flight. *)
Definition fly (missile : Missile.t) : Missile.t :=
  let dx := Missile.destX missile - Missile.x missile in
  let dy := Missile.destY missile - Missile.y missile in
  Missile.move_to
    (Missile.x missile + dx / missile_distance missile * MISSILE_SPEED)
    (Missile.y missile + dy / missile_distance missile * MISSILE_SPEED)
    missile.

(** What the callback of step 2 does at a detonation. *)
Definition detonate (Math_random : nat -> number)
  (missile : Missile.t) (w : State) : State :=
  set_explosions
    (explosions w ++
     [Explosion.mk (Math_random (rng w))
        (Missile.destX missile) (Missile.destY missile) 2 true])
    (set_rng (Datatypes.S (rng w)) w).

(** A rocket inside the blast of an explosion, as step 3 tests it. *)
Definition in_blast (exp : Explosion.t) (rocket : Rocket.t) : Prop :=
  let dx := Rocket.x rocket - Explosion.x exp in
  let dy := Rocket.y rocket - Explosion.y exp in
  sqrt (dx * dx + dy * dy) < Explosion.radius exp.

(** The phase that step 5 sets for the next render: [s] is the render the
    callback closes over, [w] the state after steps 1 to 4. *)
Definition phase_after (s w : State) : GameState :=
  if forallb Battery.destroyed (batteries w) then lost
  else if decide (score s >= WIN_SCORE) then won
  else gameState w.

(** The speed that [spawnRocket] gives a rocket. *)
Definition spawn_speed (r : Rocket.t) : Prop :=
  ROCKET_SPEED_MIN <= Rocket.speed r <= ROCKET_SPEED_MAX.

(** Where the batteries and the cities stand. *)
Definition battery_positions (w : State) : list (number * number) :=
  map (fun b => (Battery.x b, Battery.y b)) (batteries w).
Definition city_positions (w : State) : list (number * number) :=
  map (fun c => (City.x c, City.y c)) (cities w).

(** The batteries and cities stand where [startGame] puts them. *)
Definition standard_layout (w : State) : Prop :=
  battery_positions w = battery_positions initial_state /\
  city_positions w = city_positions initial_state.

(** An explosion as steps 1 and 2 create it. *)
Definition fresh (e : Explosion.t) : Prop :=
  Explosion.radius e = 2 /\ Explosion.growing e = true.

(** What steps 1 to 4 leave alone: the [useState] cells other than the
    score, the confetti, and where the batteries and cities stand. *)
Definition same_frame (w w' : State) : Prop :=
  gameState w' = gameState w /\ ammo w' = ammo w /\
  confetti w' = confetti w /\
  battery_positions w' = battery_positions w /\
  city_positions w' = city_positions w.






(** What holds of every explosion in the store: while it grows its radius
    is 2 plus a whole number of growth steps and is below
    [EXPLOSION_RADIUS_MAX]; once it shrinks its radius is at most 41. *)
Definition explosion_ok (e : Explosion.t) : Prop :=
  if Explosion.growing e
  then (exists k : nat,
          Explosion.radius e = 2 + EXPLOSION_GROWTH_RATE * INR k) /\
       Explosion.radius e < EXPLOSION_RADIUS_MAX
  else Explosion.radius e <= 41.

(** A battery that [handleCanvasClick] may fire from. *)
Definition can_fire (b : Battery.t) : Prop :=
  Battery.destroyed b = false /\ Battery.ammo b > 0.

(** The states the component can be in: it starts in [initial_state], and
    then [startGame], clicks on the canvas and animation frames follow each
    other in any order. *)
Inductive reachable (Math_random : nat -> number) : State -> Prop :=
| reachable_initial : reachable Math_random initial_state
| reachable_startGame s :
    reachable Math_random s -> reachable Math_random (startGame s)
| reachable_click s e s' :
    reachable Math_random s ->
    handleCanvasClick Math_random e s = Ok s' ->
    reachable Math_random s'
| reachable_update s s' :
    reachable Math_random s ->
    update Math_random s = Ok s' ->
    reachable Math_random s'.

(** ** Sample inputs *)

(** An oracle whose draws are all one half: step 4 then spawns nothing as
    long as the score is below 4850. *)
Definition half : nat -> number := fun _ => 0.5.

(** A round that has just started. *)
Definition fresh_round : State := startGame initial_state.

(** A round at 1000 points with its three batteries destroyed. *)
Definition last_stand : State :=
  mkState playing 1000 (mkAmmo 0 0 0) [] [] []
    (map Battery.destroy initial_batteries) initial_cities O O.

(** A click in the middle of a canvas shown at its logical size. *)
Definition center_click : Click := mkClick 400 300 0 0 800 600.

(** A rocket one unit above the left battery, its target. *)
Definition landing : Rocket.t := Rocket.mk 0 50 579 50 580 0.5 0.

(** The round after [center_click]: the center battery, at distance 0 of
    the click horizontally, has fired. *)
Definition batteries_after_shot : list Battery.t :=
  [ Battery.mk 50 (CANVAS_HEIGHT - 20) 20 20 false;
    Battery.mk (CANVAS_WIDTH / 2) (CANVAS_HEIGHT - 20) (40 - 1) 40 false;
    Battery.mk (CANVAS_WIDTH - 50) (CANVAS_HEIGHT - 20) 20 20 false ].

Definition after_center_click : State :=
  mkState playing 0 (mkAmmo 20 40 20) []
    [Missile.mk (half 0) (CANVAS_WIDTH / 2) (CANVAS_HEIGHT - 20)
       ((400 - 0) * (CANVAS_WIDTH / 800)) ((300 - 0) * (CANVAS_HEIGHT / 600))
       (CANVAS_WIDTH / 2) (CANVAS_HEIGHT - 20)]
    [] batteries_after_shot initial_cities 1 O.

(** A click on the center battery, and the round after it: the center
    battery has fired one missile, bound for the point it stands on. *)
Definition battery_click : Click := mkClick 400 580 0 0 800 600.

Definition point_blank : State :=
  mkState playing 0 (mkAmmo 20 40 20) []
    [Missile.mk (half 0) (CANVAS_WIDTH / 2) (CANVAS_HEIGHT - 20)
       ((400 - 0) * (CANVAS_WIDTH / 800)) ((580 - 0) * (CANVAS_HEIGHT / 600))
       (CANVAS_WIDTH / 2) (CANVAS_HEIGHT - 20)]
    [] batteries_after_shot initial_cities 1 O.

(** The same round some frames later: the missile has detonated and its
    explosion, of radius [r], is all there is in the air. *)
Definition glow (r : number) (growing : bool) (n : nat) : State :=
  mkState playing 0 (mkAmmo 20 (40 - 1) 20) [] []
    [Explosion.mk (half 1)
       ((400 - 0) * (CANVAS_WIDTH / 800)) ((580 - 0) * (CANVAS_HEIGHT / 600))
       r growing]
    batteries_after_shot initial_cities n O.

(** A rocket falling straight onto the left battery, and a round at 980
    points in which it falls through a growing explosion. *)
Definition falling : Rocket.t := Rocket.mk 0 50 100 50 580 0.5 0.

Definition match_point : State :=
  mkState playing 980 (mkAmmo 20 40 20) [falling] []
    [Explosion.mk 0 50 100 9.5 true] initial_batteries initial_cities O O.

(** A round in which a rocket dives onto the right battery, 180 units
    above it, and two clicks: the first one is [battery_click], on the
    center battery; the second one, up on the right, makes the right
    battery fire. *)
Definition diving : Rocket.t := Rocket.mk 0 750 400 750 580 0.5 0.

Definition standoff : State :=
  mkState playing 0 (mkAmmo 20 40 20) [diving] [] []
    initial_batteries initial_cities O O.

Definition right_click : Click := mkClick 700 250 0 0 800 600.

(** A round with two rockets in the air, [diving] and [falling]. *)
Definition barrage : State :=
  mkState playing 0 (mkAmmo 20 40 20) [diving; falling] [] []
    initial_batteries initial_cities O O.

(** The missile of the second click, as launched. *)
Definition interceptor : Missile.t :=
  Missile.mk (half 1) (CANVAS_WIDTH - 50) (CANVAS_HEIGHT - 20)
    ((700 - 0) * (CANVAS_WIDTH / 800)) ((250 - 0) * (CANVAS_HEIGHT / 600))
    (CANVAS_WIDTH - 50) (CANVAS_HEIGHT - 20).

(** [standoff] after the two clicks. *)
Definition crossfire : State :=
  mkState playing 0 (mkAmmo 20 40 20) [diving]
    [ Missile.mk (half 0) (CANVAS_WIDTH / 2) (CANVAS_HEIGHT - 20)
        ((400 - 0) * (CANVAS_WIDTH / 800)) ((580 - 0) * (CANVAS_HEIGHT / 600))
        (CANVAS_WIDTH / 2) (CANVAS_HEIGHT - 20);
      interceptor ]
    []
    [ Battery.mk 50 (CANVAS_HEIGHT - 20) 20 20 false;
      Battery.mk (CANVAS_WIDTH / 2) (CANVAS_HEIGHT - 20) (40 - 1) 40 false;
      Battery.mk (CANVAS_WIDTH - 50) (CANVAS_HEIGHT - 20) (20 - 1) 20 false ]
    initial_cities 2 O.

(** An oracle whose draws are all 0: step 4 then spawns a rocket in every
    frame, at the left end of the top edge, aimed at the left battery; and
    a round after its first frame. *)
Definition eager : nat -> number := fun _ => 0.

Definition first_wave : State :=
  mkState playing 0 (mkAmmo 20 40 20)
    [Rocket.mk 0 (0 * CANVAS_WIDTH) 0 50 (CANVAS_HEIGHT - 20)
       (ROCKET_SPEED_MIN + 0 * (ROCKET_SPEED_MAX - ROCKET_SPEED_MIN))
       (0 * 60 + 0)]
    [] [] initial_batteries initial_cities 6 O.

(** ** Notions for the properties of a round *)

(** A battery hit or left alone by an impact, and a city likewise. *)
Definition struck (b b' : Battery.t) : Prop :=
  b' = b \/ b' = Battery.destroy b.
Definition razed (c c' : City.t) : Prop :=
  c' = c \/ c' = City.destroy c.

(** The ammo of a battery is a whole number up to its capacity, and zero
    once the battery is destroyed. *)
Definition whole_ammo (b : Battery.t) : Prop :=
  (exists k : nat, Battery.ammo b = INR k /\ INR k <= Battery.maxAmmo b) /\
  (Battery.destroyed b = true -> Battery.ammo b = 0).

(** A battery later in the same round: where it was, with the same
    capacity, no more ammo, and destroyed if it was. *)
Definition worn (b b' : Battery.t) : Prop :=
  Battery.x b' = Battery.x b /\ Battery.y b' = Battery.y b /\
  Battery.maxAmmo b' = Battery.maxAmmo b /\
  Battery.ammo b' <= Battery.ammo b /\
  (Battery.destroyed b = true -> Battery.destroyed b' = true).

(** A city later in the same round. *)
Definition ruined (c c' : City.t) : Prop :=
  City.x c' = City.x c /\ City.y c' = City.y c /\
  (City.destroyed c = true -> City.destroyed c' = true).

(** The points rockets are aimed at: where the batteries and cities stand
    at the start of a round. *)
Definition structure_positions : list (number * number) :=
  battery_positions initial_state ++ city_positions initial_state.

(** A rocket aimed at one of these points. *)
Definition aimed (r : Rocket.t) : Prop :=
  (Rocket.targetX r, Rocket.targetY r) ∈ structure_positions.

(** An explosion after [n] visits of step 3, or [None] once a visit has
    spliced it out. *)
Fixpoint visits (n : nat) (e : Explosion.t) : option Explosion.t :=
  match n with
  | O => Some e
  | Datatypes.S n' =>
      match visits n' e with
      | Some e' => if snd (grow e') then None else Some (fst (grow e'))
      | None => None
      end
  end.

(** Every second element of a list, from the second one on. *)
Fixpoint every_other {A : Type} (l : list A) : list A :=
  match l with
  | _ :: y :: l' => y :: every_other l'
  | _ => []
  end.

(** The sizes that a command hands to the canvas are not negative: the
    2D context throws on a negative radius. *)
Definition sizes_ok (c : Canvas.Cmd) : Prop :=
  match c with
  | Canvas.clearRect _ _ w h => 0 <= w /\ 0 <= h
  | Canvas.fillRect _ _ w h => 0 <= w /\ 0 <= h
  | Canvas.arc _ _ r _ _ _ => 0 <= r
  | Canvas.createRadialGradient _ _ r0 _ _ r1 => 0 <= r0 /\ 0 <= r1
  | Canvas.lineWidth w => 0 <= w
  | _ => True
  end.

(** The ammo read-out that step 5 takes from the batteries. *)
Definition ammo_of (bs : list Battery.t) : option Ammo :=
  match bs !! O, bs !! 1%nat, bs !! 2%nat with
  | Some b0, Some b1, Some b2 =>
      Some (mkAmmo (Battery.ammo b0) (Battery.ammo b1) (Battery.ammo b2))
  | _, _, _ => None
  end.

(** * Properties *)

#[local] Arguments INR : simpl never.
#[local] Arguments Rabs : simpl never.
#[local] Arguments sqrt : simpl never.

(** From an equation between states, the equations between their
    fields. *)
Ltac fields_of H :=
  pose proof (f_equal gameState H); pose proof (f_equal score H);
  pose proof (f_equal ammo H); pose proof (f_equal rockets H);
  pose proof (f_equal missiles H); pose proof (f_equal explosions H);
  pose proof (f_equal batteries H); pose proof (f_equal cities H);
  pose proof (f_equal rng H); pose proof (f_equal confetti H);
  simpl in *.

(** ** The traversal *)

Section ForEachFacts.
Context {A S : Type}.
Variable cb : A -> S -> Result (option A * S).

Lemma forEach_from_exhausted n k arr s :
  (length arr <= k)%nat -> forEach_from cb n k arr s = Ok (arr, s).
Proof.
  revert k. induction n as [|n IH]; intros k Hk; simpl; [done|].
  rewrite lookup_ge_None_2 by done. apply IH. lia.
Qed.

Lemma forEach_from_struct_aux m : forall l n pre s,
  (length l <= m)%nat -> (length l <= n)%nat ->
  forEach_from cb n (length pre) (pre ++ l) s =
  '(l', s') ← forEach_struct cb l s; Ok (pre ++ l', s').
Proof.
  induction m as [|m IH]; intros l n pre s Hm Hn.
  { destruct l; [|simpl in Hm; lia]. simpl.
    rewrite forEach_from_exhausted; [done|].
    rewrite length_app. simpl. lia. }
  destruct l as [|x rest].
  { simpl. rewrite forEach_from_exhausted; [done|].
    rewrite length_app. simpl. lia. }
  destruct n as [|n]; [simpl in Hn; lia|]. simpl in Hm, Hn.
  simpl. rewrite list_lookup_middle by done.
  destruct (cb x s) as [[[x'|] s']|e]; simpl; [| |done].
  - replace (<[length pre:=x']> (pre ++ x :: rest))
      with ((pre ++ [x']) ++ rest).
    2:{ rewrite insert_app_r_alt by lia. rewrite Nat.sub_diag. simpl.
        by rewrite <- app_assoc. }
    replace (Datatypes.S (length pre)) with (length (pre ++ [x'])).
    2:{ rewrite length_app. simpl. lia. }
    rewrite IH by lia.
    destruct (forEach_struct cb rest s') as [[rest' s'']|e]; simpl; [|done].
    by rewrite <- app_assoc.
  - replace (delete (length pre) (pre ++ x :: rest)) with (pre ++ rest).
    2:{ by rewrite delete_middle. }
    destruct rest as [|y rest'].
    { rewrite forEach_from_exhausted; [done|].
      rewrite length_app. simpl. lia. }
    replace (pre ++ y :: rest') with ((pre ++ [y]) ++ rest').
    2:{ by rewrite <- app_assoc. }
    replace (Datatypes.S (length pre)) with (length (pre ++ [y])).
    2:{ rewrite length_app. simpl. lia. }
    simpl in Hm, Hn. rewrite IH by lia.
    destruct (forEach_struct cb rest' s') as [[rest'' s'']|e]; simpl; [|done].
    by rewrite <- app_assoc.
Qed.

Lemma forEach_eq arr s : forEach cb arr s = forEach_struct cb arr s.
Proof.
  unfold forEach.
  pose proof (forEach_from_struct_aux (length arr) arr (length arr) [] s) as H.
  simpl in H. rewrite H by done.
  by destruct (forEach_struct cb arr s) as [[l' s']|e].
Qed.

(** Induction along the traversal: from [x :: rest] it continues either
    with [rest] or, after a removal, past the head of [rest]. *)
Lemma list_skip_ind (P : list A -> Prop) :
  P [] ->
  (forall x rest,
      P rest -> (forall y rest', rest = y :: rest' -> P rest') ->
      P (x :: rest)) ->
  forall l, P l.
Proof.
  intros Hnil Hcons l.
  assert (H : P l /\ (forall y l', l = y :: l' -> P l')); [|tauto].
  induction l as [|x l [IH1 IH2]]; (split; [|intros y l' Hl']).
  - done.
  - discriminate.
  - by apply Hcons.
  - by injection Hl' as _ <-.
Qed.

(** A callback that never fails and keeps an invariant of the state makes
    a traversal that never fails and keeps it; every element left in the
    array is an element it started with, untouched or as the callback
    rewrote it. *)
Lemma forEach_struct_inv (I : S -> Prop) (Rel : A -> A -> Prop) :
  (forall x s, I s ->
     exists r s', cb x s = Ok (r, s') /\ I s' /\
                  forall x', r = Some x' -> Rel x x') ->
  forall l s, I s ->
  exists l' s',
    forEach_struct cb l s = Ok (l', s') /\ I s' /\
    (length l' <= length l)%nat /\
    Forall (fun x' => exists x, x ∈ l /\ (x' = x \/ Rel x x')) l'.
Proof.
  intros Hcb l. induction l as [|x rest IH1 IH2] using list_skip_ind;
    intros s Hs.
  { exists [], s. by repeat split. }
  simpl. destruct (Hcb x s Hs) as (r & s' & -> & Hs' & Hr). simpl.
  destruct r as [x'|].
  - destruct (IH1 s' Hs') as (l' & s'' & -> & Hs'' & Hlen & Hall). simpl.
    exists (x' :: l'), s''. repeat split; [done|simpl; lia|].
    constructor.
    + exists x. split; [left|right; by apply Hr].
    + eapply Forall_impl; [exact Hall|]. simpl.
      intros z (z0 & Hz0 & Hz). exists z0. split; [by right|done].
  - destruct rest as [|y rest'].
    { exists [], s'. repeat split; [done|simpl; lia|constructor]. }
    destruct (IH2 y rest' eq_refl s' Hs')
      as (l' & s'' & -> & Hs'' & Hlen & Hall). simpl.
    exists (y :: l'), s''. repeat split; [done|simpl; lia|].
    constructor.
    + exists y. split; [right; left|by left].
    + eapply Forall_impl; [exact Hall|]. simpl.
      intros z (z0 & Hz0 & Hz). exists z0. split; [by do 2 right|done].
Qed.
End ForEachFacts.

(** On [[2; 4; 5]], a callback that splices the even numbers out removes
    2, never sees 4, which slides to index 0, and keeps 5: what JavaScript
    leaves of [a = [2, 4, 5]] after
    [a.forEach((x, i) => { if (x % 2 === 0) a.splice(i, 1) })]. *)
Example forEach_skips_after_splice :
  forEach (fun (x : nat) (s : unit) =>
             Ok (if Nat.even x then None else Some x, s))
    [2; 4; 5]%nat tt = Ok ([4; 5]%nat, tt).
Proof. reflexivity. Qed.

(** ** Numbers *)

Lemma div_ok (a b : number) : b <> 0 -> div a b = Ok (a / b).
Proof. intros Hb. unfold div. by rewrite decide_False. Qed.

Lemma sqrt_sum_squares (a b : number) : sqrt (a * a + b * b) * sqrt (a * a + b * b) = a * a + b * b.
Proof. apply sqrt_sqrt. nra. Qed.

Lemma sqrt_lt_bound (v c : number) :
  0 <= v -> 0 < c -> v < c * c -> sqrt v < c.
Proof.
  intros Hv Hc Hlt. rewrite <- (sqrt_square c) by lra.
  apply sqrt_lt_1_alt. lra.
Qed.

Lemma sqrt_ge_bound (v c : number) :
  0 <= c -> c * c <= v -> ~ sqrt v < c.
Proof.
  intros Hc Hle Hlt. apply (Rlt_irrefl c).
  eapply Rle_lt_trans; [|exact Hlt].
  rewrite <- (sqrt_square c) at 1 by lra. by apply sqrt_le_1_alt.
Qed.

(** Moving from a point at distance [d] of a target by [sp] along the unit
    vector to the target leaves it at distance [d - sp]. *)
Lemma step_towards (dx dy sp : number) :
  let d := sqrt (dx * dx + dy * dy) in
  0 <= sp <= d -> d <> 0 ->
  sqrt ((dx - dx / d * sp) * (dx - dx / d * sp) +
        (dy - dy / d * sp) * (dy - dy / d * sp)) = d - sp.
Proof.
  intros d Hsp Hd.
  assert (Hdd : d * d = dx * dx + dy * dy) by apply sqrt_sum_squares.
  replace ((dx - dx / d * sp) * (dx - dx / d * sp) +
           (dy - dy / d * sp) * (dy - dy / d * sp))
    with ((d - sp) * (d - sp)).
  - apply sqrt_square. lra.
  - replace (dx - dx / d * sp) with (dx * ((d - sp) / d)) by (field; done).
    replace (dy - dy / d * sp) with (dy * ((d - sp) / d)) by (field; done).
    transitivity ((dx * dx + dy * dy) * (((d - sp) / d) * ((d - sp) / d)));
      [|ring].
    rewrite <- Hdd. field. done.
Qed.

(** Deciding the comparisons of numbers met while running the functions on
    sample inputs. *)
Ltac Rcheck :=
  simpl;
  unfold CANVAS_WIDTH, CANVAS_HEIGHT, ROCKET_SPEED_MIN, ROCKET_SPEED_MAX,
    MISSILE_SPEED, EXPLOSION_RADIUS_MAX, EXPLOSION_GROWTH_RATE,
    SCORE_PER_ROCKET, WIN_SCORE in *;
  first
    [ lra
    | unfold Rabs; repeat destruct (Rcase_abs _); lra
    | apply sqrt_lt_bound; lra
    | apply sqrt_ge_bound; lra ].

Ltac eval_decide :=
  repeat match goal with
    | |- context [bool_decide ?P] =>
        first [ rewrite (bool_decide_eq_true_2 P) by Rcheck
              | rewrite (bool_decide_eq_false_2 P) by Rcheck ]
    | |- context [decide ?P] =>
        first [ rewrite (decide_True (P:=P)) by Rcheck
              | rewrite (decide_False (P:=P)) by Rcheck ]
    end.

(** ** Step 1: rockets *)

Section GameFacts.
Variable Math_random : nat -> number.

Lemma rocket_distance_nonneg r : 0 <= rocket_distance r.
Proof. apply sqrt_pos. Qed.

Lemma update_rocket_impact rocket w :
  rocket_distance rocket < 2 ->
  update_rocket Math_random rocket w = Ok (None, impact Math_random rocket w).
Proof.
  intros Hd. unfold update_rocket, rocket_distance in *.
  by rewrite decide_True.
Qed.

Lemma update_rocket_flight rocket w :
  ~ rocket_distance rocket < 2 ->
  update_rocket Math_random rocket w = Ok (Some (advance rocket), w).
Proof.
  intros Hd. unfold update_rocket, advance, rocket_distance in *.
  rewrite decide_False by done.
  rewrite !div_ok by lra. done.
Qed.

Lemma advance_same_flight rocket : same_flight rocket (advance rocket).
Proof. by repeat split. Qed.

Lemma advance_distance rocket :
  ~ rocket_distance rocket < 2 -> spawn_speed rocket ->
  rocket_distance (advance rocket) = rocket_distance rocket - Rocket.speed rocket.
Proof.
  intros Hd [Hlo Hhi]. unfold ROCKET_SPEED_MIN, ROCKET_SPEED_MAX in *.
  unfold rocket_distance at 1. unfold advance. simpl.
  fold (rocket_distance rocket).
  set (dx := Rocket.targetX rocket - Rocket.x rocket).
  set (dy := Rocket.targetY rocket - Rocket.y rocket).
  set (d := rocket_distance rocket) in *.
  set (sp := Rocket.speed rocket) in *.
  replace (Rocket.targetX rocket - (Rocket.x rocket + dx / d * sp))
    with (dx - dx / d * sp) by (unfold dx; ring).
  replace (Rocket.targetY rocket - (Rocket.y rocket + dy / d * sp))
    with (dy - dy / d * sp) by (unfold dy; ring).
  apply (step_towards dx dy sp); change (sqrt (dx * dx + dy * dy)) with d; lra.
Qed.

Lemma same_frame_refl w : same_frame w w.
Proof. by repeat split. Qed.

Lemma same_frame_trans w1 w2 w3 :
  same_frame w1 w2 -> same_frame w2 w3 -> same_frame w1 w3.
Proof.
  intros (?&?&?&?&?) (?&?&?&?&?). repeat split; congruence.
Qed.

Lemma impact_positions rocket w :
  battery_positions (impact Math_random rocket w) = battery_positions w /\
  city_positions (impact Math_random rocket w) = city_positions w.
Proof.
  unfold battery_positions, city_positions, impact. simpl.
  rewrite !map_map. split; apply map_ext; intros a; simpl.
  - by destruct (hit _ _ _ _).
  - by destruct (hit _ _ _ _).
Qed.

(** Step 1 never fails.  It leaves the score and the missiles alone, adds
    fresh explosions, and every rocket it leaves in the store is a rocket
    that was there: skipped, or advanced from a distance of 2 or more. *)
Lemma update_rockets_spec w :
  exists w',
    update_rockets Math_random w = Ok w' /\
    same_frame w w' /\ score w' = score w /\ missiles w' = missiles w /\
    (exists new, explosions w' = explosions w ++ new /\ Forall fresh new) /\
    (length (rockets w') <= length (rockets w))%nat /\
    Forall (fun r' => exists r, r ∈ rockets w /\
              (r' = r \/ (~ rocket_distance r < 2 /\ r' = advance r)))
           (rockets w').
Proof.
  unfold update_rockets. rewrite forEach_eq.
  destruct (forEach_struct_inv (update_rocket Math_random)
    (fun w' => same_frame w w' /\ score w' = score w /\
               missiles w' = missiles w /\
               exists new, explosions w' = explosions w ++ new /\
                           Forall fresh new)
    (fun r r' => ~ rocket_distance r < 2 /\ r' = advance r))
    with (l := rockets w) (s := w)
    as (rs & w' & -> & (Hf & Hs & Hm & He) & Hlen & Hall).
  - intros rocket w0 (Hf & Hs & Hm & new & He & Hnew).
    destruct (decide (rocket_distance rocket < 2)) as [Hd|Hd].
    + exists None, (impact Math_random rocket w0).
      split; [by apply update_rocket_impact|]. split; [|done].
      destruct (impact_positions rocket w0) as [Hb Hc].
      destruct Hf as (?&?&?&?&?).
      unfold same_frame. split_and!; simpl; try congruence.
      exists (new ++ [Explosion.mk (Math_random (rng w0))
                        (Rocket.x rocket) (Rocket.y rocket) 2 true]).
      split; [by rewrite He, <- app_assoc|].
      apply Forall_app. split; [done|]. by repeat constructor.
    + exists (Some (advance rocket)), w0.
      split; [by apply update_rocket_flight|]. split.
      * split_and!; try done. by exists new.
      * intros x' [= <-]. done.
  - split; [apply same_frame_refl|]. split_and!; try done.
    exists []. by rewrite app_nil_r.
  - simpl. exists (set_rockets rs w'). split_and!; try done.
Qed.

(** ** Step 2: missiles *)

Lemma update_missile_detonation missile w :
  missile_distance (reaim (rockets w) missile) < MISSILE_SPEED ->
  update_missile Math_random missile w =
  Ok (None, detonate Math_random (reaim (rockets w) missile) w).
Proof.
  intros Hd. unfold update_missile. fold (reaim (rockets w) missile).
  unfold missile_distance in Hd. by rewrite decide_True.
Qed.

Lemma update_missile_flight missile w :
  ~ missile_distance (reaim (rockets w) missile) < MISSILE_SPEED ->
  update_missile Math_random missile w =
  Ok (Some (fly (reaim (rockets w) missile)), w).
Proof.
  intros Hd. unfold update_missile. fold (reaim (rockets w) missile).
  unfold fly, missile_distance, MISSILE_SPEED in *.
  rewrite decide_False by done.
  rewrite !div_ok by lra. done.
Qed.

(** Step 2 never fails.  It changes the missiles, adds fresh explosions
    and draws their identifiers. *)
Lemma update_missiles_spec w :
  exists w',
    update_missiles Math_random w = Ok w' /\
    same_frame w w' /\ score w' = score w /\ rockets w' = rockets w /\
    batteries w' = batteries w /\ cities w' = cities w /\
    (exists new, explosions w' = explosions w ++ new /\ Forall fresh new) /\
    (length (missiles w') <= length (missiles w))%nat.
Proof.
  unfold update_missiles. rewrite forEach_eq.
  destruct (forEach_struct_inv (update_missile Math_random)
    (fun w' => same_frame w w' /\ score w' = score w /\
               rockets w' = rockets w /\ batteries w' = batteries w /\
               cities w' = cities w /\
               exists new, explosions w' = explosions w ++ new /\
                           Forall fresh new)
    (fun _ _ => True))
    with (l := missiles w) (s := w)
    as (ms & w' & -> & (Hf & Hs & Hr & Hb & Hc & He) & Hlen & _).
  - intros missile w0 (Hf & Hs & Hr & Hb & Hc & new & He & Hnew).
    destruct (decide (missile_distance (reaim (rockets w0) missile)
                      < MISSILE_SPEED)) as [Hd|Hd].
    + eexists None, _.
      split; [by apply update_missile_detonation|]. split; [|done].
      destruct Hf as (?&?&?&?&?).
      unfold same_frame. split_and!; simpl; try congruence; try done.
      eexists (new ++ [_]).
      split; [by rewrite He, <- app_assoc|].
      apply Forall_app. split; [done|]. by repeat constructor.
    + eexists (Some _), w0.
      split; [by apply update_missile_flight|]. split; [|done].
      split_and!; try done. by exists new.
  - split; [apply same_frame_refl|]. split_and!; try done.
    exists []. by rewrite app_nil_r.
  - simpl. exists (set_missiles ms w'). split_and!; try done.
Qed.

(** ** Step 3: explosions *)

Lemma set_score_set_score a b w : set_score a (set_score b w) = set_score a w.
Proof. done. Qed.

Lemma set_score_score w : set_score (score w) w = w.
Proof. by destruct w. Qed.

Lemma collide_hit exp rocket w :
  in_blast exp rocket ->
  collide exp rocket w =
  Ok (None, set_score (score w + SCORE_PER_ROCKET) w).
Proof. intros H. unfold collide, in_blast in *. by rewrite decide_True. Qed.

Lemma collide_miss exp rocket w :
  ~ in_blast exp rocket -> collide exp rocket w = Ok (Some rocket, w).
Proof. intros H. unfold collide, in_blast in *. by rewrite decide_False. Qed.

(** The collision scan of one explosion never fails; it only removes
    rockets and adds [SCORE_PER_ROCKET] to the score for each. *)
Lemma collide_pass exp l : forall w,
  exists l' w',
    forEach_struct (collide exp) l w = Ok (l', w') /\
    set_score (score w) w' = w /\
    score w' + SCORE_PER_ROCKET * INR (length l') =
    score w + SCORE_PER_ROCKET * INR (length l) /\
    (length l' <= length l)%nat /\
    Forall (fun r => r ∈ l) l'.
Proof.
  induction l as [|x rest IH1 IH2] using list_skip_ind; intros w.
  { exists [], w. split_and!; try done. apply set_score_score. }
  simpl.
  destruct (Rlt_dec
    (sqrt ((Rocket.x x - Explosion.x exp) * (Rocket.x x - Explosion.x exp) +
           (Rocket.y x - Explosion.y exp) * (Rocket.y x - Explosion.y exp)))
    (Explosion.radius exp)) as [Hd|Hd];
    [rewrite collide_hit by done|rewrite collide_miss by done]; simpl.
  - destruct rest as [|y rest'].
    + eexists [], _. split_and!; try done.
      * rewrite set_score_set_score. apply set_score_score.
      * unfold SCORE_PER_ROCKET. simpl. rewrite S_INR.
        change (INR 0) with 0. lra.
      * simpl. lia.
    + destruct (IH2 y rest' eq_refl
                  (set_score (score w + SCORE_PER_ROCKET) w))
        as (l' & w' & -> & Hw & Hsc & Hlen & Hall). simpl.
      exists (y :: l'), w'. split_and!; try done.
      * apply (f_equal (set_score (score w))) in Hw.
        rewrite !set_score_set_score in Hw. rewrite Hw.
        apply set_score_score.
      * simpl in Hsc. rewrite !length_cons, !S_INR.
        unfold SCORE_PER_ROCKET in *. lra.
      * simpl. lia.
      * constructor; [by right; left|].
        eapply Forall_impl; [exact Hall|]. simpl. intros. by do 2 right.
  - destruct (IH1 w) as (l' & w' & -> & Hw & Hsc & Hlen & Hall). simpl.
    exists (x :: l'), w'. split_and!; try done.
    + rewrite !length_cons, !S_INR. unfold SCORE_PER_ROCKET in *. lra.
    + simpl. lia.
    + constructor; [by left|].
      eapply Forall_impl; [exact Hall|]. simpl. intros. by right.
Qed.

(** The callback of step 3 never fails: the explosion grows or shrinks,
    is spliced out when [grow] says so, and its scan only removes rockets
    and scores them. *)
Lemma update_explosion_spec exp w :
  exists w',
    update_explosion exp w =
    Ok (if snd (grow exp) then None else Some (fst (grow exp)), w') /\
    set_score (score w) (set_rockets (rockets w) w') = w /\
    score w' + SCORE_PER_ROCKET * INR (length (rockets w')) =
    score w + SCORE_PER_ROCKET * INR (length (rockets w)) /\
    (length (rockets w') <= length (rockets w))%nat /\
    Forall (fun r => r ∈ rockets w) (rockets w').
Proof.
  unfold update_explosion. destruct (grow exp) as [exp' removed]. simpl.
  rewrite forEach_eq.
  destruct (collide_pass exp' (rockets w) w)
    as (l' & w' & -> & Hw & Hsc & Hlen & Hall). simpl.
  exists (set_rockets l' w'). split_and!; try done.
  assert (Hr : rockets w' = rockets w) by (by rewrite <- Hw).
  transitivity (set_score (score w) w'); [|exact Hw].
  rewrite <- Hr. by destruct w'.
Qed.

(** Step 3 never fails.  It changes the explosions, the rockets and the
    score only: every explosion left is one that was there, skipped or
    grown by one visit; every rocket left was there; and each rocket
    removed adds [SCORE_PER_ROCKET] to the score. *)
Lemma update_explosions_spec w :
  exists w',
    update_explosions w = Ok w' /\
    set_score (score w)
      (set_rockets (rockets w) (set_explosions (explosions w) w')) = w /\
    score w' + SCORE_PER_ROCKET * INR (length (rockets w')) =
    score w + SCORE_PER_ROCKET * INR (length (rockets w)) /\
    (length (rockets w') <= length (rockets w))%nat /\
    Forall (fun r => r ∈ rockets w) (rockets w') /\
    Forall (fun e' => exists e, e ∈ explosions w /\
              (e' = e \/ e' = fst (grow e))) (explosions w').
Proof.
  unfold update_explosions. rewrite forEach_eq.
  destruct (forEach_struct_inv update_explosion
    (fun w' =>
       set_score (score w) (set_rockets (rockets w) w') = w /\
       score w' + SCORE_PER_ROCKET * INR (length (rockets w')) =
       score w + SCORE_PER_ROCKET * INR (length (rockets w)) /\
       (length (rockets w') <= length (rockets w))%nat /\
       Forall (fun r => r ∈ rockets w) (rockets w'))
    (fun e e' => e' = fst (grow e)))
    with (l := explosions w) (s := w)
    as (es & w' & -> & (Hw & Hsc & Hlr & Hrs) & Hlen & Hall).
  - intros exp w0 (Hw0 & Hsc0 & Hlr0 & Hrs0).
    destruct (update_explosion_spec exp w0)
      as (w1 & -> & Hw1 & Hsc1 & Hlr1 & Hrs1).
    eexists _, w1. split; [done|]. split.
    + split_and!.
      * transitivity (set_score (score w) (set_rockets (rockets w) w0));
          [|exact Hw0].
        apply (f_equal (fun v =>
          set_score (score w) (set_rockets (rockets w) v))) in Hw1.
        exact Hw1.
      * lra.
      * lia.
      * eapply Forall_impl; [exact Hrs1|]. simpl. intros r Hr.
        eapply Forall_forall in Hrs0; [exact Hrs0|done].
    + intros e'. destruct (snd (grow exp)); [done|]. by intros [= <-].
  - split_and!; try done.
    + by destruct w.
    + apply Forall_forall. auto.
  - simpl. exists (set_explosions es w'). split_and!; try done.
    assert (He : explosions w' = explosions w) by (by rewrite <- Hw).
    transitivity (set_score (score w) (set_rockets (rockets w) w'));
      [|exact Hw].
    rewrite <- He. by destruct w'.
Qed.

(** ** Step 4: the spawner *)

Lemma floor_index (r : number) (n : nat) :
  0 <= r < 1 -> n <> O ->
  (0 <= Int_part (r * INR n))%Z /\ (Z.to_nat (Int_part (r * INR n)) < n)%nat.
Proof.
  intros Hr Hn.
  assert (Hpos : 0 < INR n) by (apply lt_0_INR; lia).
  destruct (base_Int_part (r * INR n)) as [Hlo Hhi].
  assert (H0 : (-1 < Int_part (r * INR n))%Z).
  { apply lt_IZR. nra. }
  assert (H1 : (Int_part (r * INR n) < Z.of_nat n)%Z).
  { apply lt_IZR. rewrite <- INR_IZR_INZ. nra. }
  lia.
Qed.

(** What [spawnRocket] appends: nothing, or one rocket at the top edge
    with a speed between the two bounds. *)
Lemma spawnRocket_spec w :
  random_in_range Math_random ->
  exists w' spawned,
    spawnRocket Math_random w = Ok w' /\
    set_rng (rng w) (set_rockets (rockets w) w') = w /\
    rockets w' = rockets w ++ spawned /\
    (length spawned <= 1)%nat /\
    Forall (fun r => spawn_speed r /\ Rocket.y r = 0) spawned.
Proof.
  intros Hrand. unfold spawnRocket.
  set (targets := _ ++ _).
  destruct (decide (length targets = O)) as [Hn|Hn].
  { exists w, []. split_and!; try done.
    - by destruct w.
    - by rewrite app_nil_r.
    - simpl. lia. }
  unfold random. simpl.
  destruct (floor_index (Math_random (rng w)) (length targets)
              (Hrand _) Hn) as [Hi0 Hi1].
  rewrite decide_True by done.
  destruct (lookup_lt_is_Some_2 targets _ Hi1) as [target ->].
  eexists _, [_]. split_and!; try done.
  - by destruct w.
  - pose proof (Hrand (Datatypes.S (Datatypes.S (Datatypes.S (rng w))))).
    constructor; [|constructor]. split; [|done].
    unfold spawn_speed, ROCKET_SPEED_MIN, ROCKET_SPEED_MAX. simpl. nra.
Qed.

Lemma spawn_rockets_spec s w :
  random_in_range Math_random ->
  exists w' spawned,
    spawn_rockets Math_random s w = Ok w' /\
    set_rng (rng w) (set_rockets (rockets w) w') = w /\
    rockets w' = rockets w ++ spawned /\
    (length spawned <= 1)%nat /\
    Forall (fun r => spawn_speed r /\ Rocket.y r = 0) spawned.
Proof.
  intros Hrand. unfold spawn_rockets, random.
  destruct (decide (_ < _)).
  - destruct (spawnRocket_spec (set_rng (Datatypes.S (rng w)) w) Hrand)
      as (w' & spawned & -> & Hw & Hrs & Hlen & Hall).
    exists w', spawned. split_and!; try done.
    apply (f_equal (fun v => set_rng (rng w) v)) in Hw. by destruct w.
  - exists (set_rng (Datatypes.S (rng w)) w), [].
    split_and!; try done.
    + by destruct w.
    + simpl. by rewrite app_nil_r.
    + simpl. lia.
Qed.

(** ** Step 5: win and loss *)

(** With three batteries in the store, step 5 never fails; it sets the
    phase, fires the confetti on a win and reads the ammo out. *)
Lemma check_win_loss_spec s w :
  (3 <= length (batteries w))%nat ->
  exists w',
    check_win_loss s w = Ok w' /\
    gameState w' = phase_after s w /\
    confetti w' =
      (if decide (score s >= WIN_SCORE)
       then Datatypes.S (confetti w) else confetti w) /\
    score w' = score w /\ rockets w' = rockets w /\
    missiles w' = missiles w /\ explosions w' = explosions w /\
    batteries w' = batteries w /\ cities w' = cities w /\
    rng w' = rng w.
Proof.
  intros Hlen. unfold check_win_loss, phase_after.
  destruct (lookup_lt_is_Some_2 (batteries w) 0) as [b0 H0]; [lia|].
  destruct (lookup_lt_is_Some_2 (batteries w) 1) as [b1 H1]; [lia|].
  destruct (lookup_lt_is_Some_2 (batteries w) 2) as [b2 H2]; [lia|].
  destruct (decide (score s >= WIN_SCORE)); simpl;
    destruct (forallb Battery.destroyed (batteries w)); simpl;
    rewrite H0, H1, H2; (eexists; split; [reflexivity|]); done.
Qed.

Lemma check_win_loss_no_div s w : check_win_loss s w <> Err DivByZero.
Proof.
  unfold check_win_loss.
  repeat match goal with
         | |- context [match ?l !! ?i with _ => _ end] =>
             destruct (l !! i)
         end; done.
Qed.

Lemma spawn_rockets_no_div s w :
  spawn_rockets Math_random s w <> Err DivByZero.
Proof.
  unfold spawn_rockets, spawnRocket, random. simpl.
  repeat match goal with
         | |- context [decide ?P] => destruct (decide P)
         | |- context [match ?l !! ?i with _ => _ end] =>
             destruct (l !! i)
         end; done.
Qed.

(** ** The whole frame *)

Lemma same_frame_length w w' :
  same_frame w w' -> length (batteries w') = length (batteries w).
Proof.
  intros (_ & _ & _ & Hb & _). unfold battery_positions in Hb.
  apply (f_equal length) in Hb. by rewrite !length_map in Hb.
Qed.

(** Steps 1 to 4 in sequence: none fails, and together they leave alone
    what [same_frame] names. *)
Lemma steps_spec s :
  random_in_range Math_random ->
  exists w1 w2 w3 w4,
    update_rockets Math_random s = Ok w1 /\
    update_missiles Math_random w1 = Ok w2 /\
    update_explosions w2 = Ok w3 /\
    spawn_rockets Math_random s w3 = Ok w4 /\
    same_frame s w4 /\ score w4 = score w3 /\
    batteries w4 = batteries w1.
Proof.
  intros Hrand.
  destruct (update_rockets_spec s) as (w1 & E1 & F1 & _).
  destruct (update_missiles_spec w1) as (w2 & E2 & F2 & _ & _ & B2 & _).
  destruct (update_explosions_spec w2) as (w3 & E3 & F3 & _).
  destruct (spawn_rockets_spec s w3 Hrand) as (w4 & sp & E4 & F4 & _).
  exists w1, w2, w3, w4. split_and!; try done.
  - apply (same_frame_trans _ w1); [done|].
    apply (same_frame_trans _ w2); [done|].
    unfold same_frame, battery_positions, city_positions.
    fields_of F3. fields_of F4. split_and!; congruence.
  - fields_of F4. congruence.
  - fields_of F3. fields_of F4. congruence.
Qed.

Lemma update_playing s w1 w2 w3 w4 :
  gameState s = playing ->
  update_rockets Math_random s = Ok w1 ->
  update_missiles Math_random w1 = Ok w2 ->
  update_explosions w2 = Ok w3 ->
  spawn_rockets Math_random s w3 = Ok w4 ->
  update Math_random s = check_win_loss s w4.
Proof.
  intros Hp E1 E2 E3 E4. unfold update.
  rewrite decide_False by (by rewrite Hp; intros H; apply H).
  rewrite E1. simpl. rewrite E2. simpl. rewrite E3. simpl. by rewrite E4.
Qed.
End GameFacts.

(** ** The round controller *)

(** C5. A frame in any phase other than [playing] changes nothing: the five
    stores, the score, the ammo read-out and every other part of the state
    are as before. *)
Theorem update_noop_unless_playing Math_random (s : State) :
  gameState s <> playing -> update Math_random s = Ok s.
Proof. intros Hp. unfold update. by rewrite decide_True. Qed.

Lemma update_noop_unless_playing_witness :
  gameState initial_state <> playing /\
  update (fun _ => 0) initial_state = Ok initial_state.
Proof.
  split; [simpl; discriminate|].
  apply update_noop_unless_playing. simpl. discriminate.
Defined.

(** C9. The motion update never divides by zero: a rocket at distance
    below 2 of its target (zero included) impacts and a missile at distance
    below 7 of its destination (zero included) detonates, the callbacks of
    steps 1 and 2 never fail, and no frame ends in [DivByZero]. *)
Theorem update_never_divides_by_zero Math_random :
  (forall rocket w,
     (rocket_distance rocket = 0 ->
      update_rocket Math_random rocket w =
      Ok (None, impact Math_random rocket w)) /\
     exists res, update_rocket Math_random rocket w = Ok res) /\
  (forall missile w,
     (missile_distance (reaim (rockets w) missile) = 0 ->
      update_missile Math_random missile w =
      Ok (None, detonate Math_random (reaim (rockets w) missile) w)) /\
     exists res, update_missile Math_random missile w = Ok res) /\
  (forall s, update Math_random s <> Err DivByZero).
Proof.
  split_and!.
  - intros rocket w. split.
    + intros H0. apply update_rocket_impact. lra.
    + destruct (decide (rocket_distance rocket < 2)).
      * eexists. by apply update_rocket_impact.
      * eexists. by apply update_rocket_flight.
  - intros missile w. split.
    + intros H0. apply update_missile_detonation.
      unfold MISSILE_SPEED. lra.
    + destruct (decide (missile_distance (reaim (rockets w) missile)
                        < MISSILE_SPEED)).
      * eexists. by apply update_missile_detonation.
      * eexists. by apply update_missile_flight.
  - intros s. unfold update.
    destruct (decide (gameState s <> playing)); [done|].
    destruct (update_rockets_spec Math_random s) as (w1 & -> & _).
    destruct (update_missiles_spec Math_random w1) as (w2 & E2 & _).
    destruct (update_explosions_spec w2) as (w3 & E3 & _).
    simpl. rewrite E2. simpl. rewrite E3. simpl.
    pose proof (spawn_rockets_no_div Math_random s w3) as H4.
    destruct (spawn_rockets Math_random s w3) as [w4|[]]; simpl; try done.
    apply check_win_loss_no_div.
Qed.

(** What a frame of the playing phase does to the phase, the score and the
    confetti, in terms of the states after steps 1, 2 and 3. *)
Lemma update_playing_spec Math_random (s : State) :
  random_in_range Math_random ->
  (3 <= length (batteries s))%nat ->
  gameState s = playing ->
  exists w1 w2 w3 s',
    update_rockets Math_random s = Ok w1 /\
    update_missiles Math_random w1 = Ok w2 /\
    update_explosions w2 = Ok w3 /\
    update Math_random s = Ok s' /\
    batteries s' = batteries w1 /\
    score s' = score w3 /\
    gameState s' =
      (if forallb Battery.destroyed (batteries s') then lost
       else if decide (score s >= WIN_SCORE) then won else playing) /\
    confetti s' =
      (if decide (score s >= WIN_SCORE)
       then Datatypes.S (confetti s) else confetti s).
Proof.
  intros Hrand Hlen Hp.
  destruct (steps_spec Math_random s Hrand)
    as (w1 & w2 & w3 & w4 & E1 & E2 & E3 & E4 & F & Hs & Hb).
  pose proof (same_frame_length _ _ F) as Hlen4.
  destruct (check_win_loss_spec s w4) as (s' & E5 & Hg & Hc & Hs' & _ & _ & _ & Hb' & _);
    [lia|].
  exists w1, w2, w3, s'. split_and!; try done.
  - by rewrite (update_playing Math_random s w1 w2 w3 w4).
  - congruence.
  - congruence.
  - rewrite Hg. unfold phase_after. rewrite Hb'.
    destruct F as (-> & _). by rewrite Hp.
  - rewrite Hc. by destruct F as (_ & _ & -> & _).
Qed.

Lemma forallb_destroyed (bs : list Battery.t) :
  forallb Battery.destroyed bs = true <->
  Forall (fun b => Battery.destroyed b = true) bs.
Proof.
  rewrite forallb_forall, Forall_forall.
  split; intros H b Hb; apply H; by apply list_elem_of_In.
Qed.

Lemma forallb_not_destroyed (bs : list Battery.t) :
  forallb Battery.destroyed bs = false <->
  Exists (fun b => Battery.destroyed b = false) bs.
Proof.
  induction bs as [|b bs IH]; simpl.
  - split; [done|]. by intros H%Exists_nil.
  - rewrite Exists_cons, <- IH. destruct (Battery.destroyed b); simpl.
    + split; [by right|]. by intros [?|?].
    + split; [by left|done].
Qed.

(** C4. In a frame of the playing phase the phase becomes [lost] exactly
    when every battery is destroyed at the check of step 5, whatever the
    cities and the score are: with a battery standing the phase is not
    [lost]. *)
Theorem lost_iff_all_batteries_destroyed Math_random (s : State) :
  random_in_range Math_random ->
  (3 <= length (batteries s))%nat ->
  gameState s = playing ->
  exists s',
    update Math_random s = Ok s' /\
    (gameState s' = lost <->
     Forall (fun b => Battery.destroyed b = true) (batteries s')) /\
    (Exists (fun b => Battery.destroyed b = false) (batteries s') ->
     gameState s' = playing \/ gameState s' = won).
Proof.
  intros Hrand Hlen Hp.
  destruct (update_playing_spec Math_random s Hrand Hlen Hp)
    as (w1 & w2 & w3 & s' & _ & _ & _ & E & _ & _ & Hg & _).
  exists s'. split; [done|]. rewrite <- forallb_destroyed.
  destruct (forallb Battery.destroyed (batteries s')) eqn:Hall.
  - split; [by rewrite Hg|]. intros Hex.
    apply forallb_destroyed in Hall. apply Exists_exists in Hex.
    destruct Hex as (b & Hb & Hd). eapply Forall_forall in Hall; [|exact Hb].
    congruence.
  - split; [|destruct (decide (score s >= WIN_SCORE)); auto].
    rewrite Hg. by destruct (decide (score s >= WIN_SCORE)).
Qed.

Lemma half_in_range : random_in_range half.
Proof. intros n. unfold half. lra. Qed.

Lemma lost_iff_all_batteries_destroyed_witness :
  random_in_range half /\
  (3 <= length (batteries fresh_round))%nat /\
  gameState fresh_round = playing /\
  exists s',
    update half fresh_round = Ok s' /\
    (gameState s' = lost <->
     Forall (fun b => Battery.destroyed b = true) (batteries s')) /\
    (Exists (fun b => Battery.destroyed b = false) (batteries s') ->
     gameState s' = playing \/ gameState s' = won).
Proof.
  assert (H1 : random_in_range half) by exact half_in_range.
  assert (H2 : (3 <= length (batteries fresh_round))%nat) by (simpl; lia).
  assert (H3 : gameState fresh_round = playing) by reflexivity.
  split_and!; try done.
  exact (lost_iff_all_batteries_destroyed half fresh_round H1 H2 H3).
Defined.

(** C10. If in a frame of the playing phase the score read by the win
    check is at least 1000 and every battery is destroyed at the loss
    check, the phase after the frame is [lost], not [won], although the win
    branch ran and fired its confetti. *)
Theorem lost_overrides_won Math_random (s : State) :
  random_in_range Math_random ->
  (3 <= length (batteries s))%nat ->
  gameState s = playing ->
  score s >= WIN_SCORE ->
  exists s',
    update Math_random s = Ok s' /\
    confetti s' = Datatypes.S (confetti s) /\
    (Forall (fun b => Battery.destroyed b = true) (batteries s') ->
     gameState s' = lost /\ gameState s' <> won).
Proof.
  intros Hrand Hlen Hp Hscore.
  destruct (update_playing_spec Math_random s Hrand Hlen Hp)
    as (w1 & w2 & w3 & s' & _ & _ & _ & E & _ & _ & Hg & Hc).
  exists s'. split_and!; try done.
  - by rewrite decide_True in Hc.
  - intros Hall. apply forallb_destroyed in Hall. rewrite Hall in Hg.
    by rewrite Hg.
Qed.

Lemma lost_overrides_won_witness :
  random_in_range half /\
  (3 <= length (batteries last_stand))%nat /\
  gameState last_stand = playing /\
  score last_stand >= WIN_SCORE /\
  exists s',
    update half last_stand = Ok s' /\
    confetti s' = Datatypes.S (confetti last_stand) /\
    (Forall (fun b => Battery.destroyed b = true) (batteries s') ->
     gameState s' = lost /\ gameState s' <> won).
Proof.
  assert (H1 : random_in_range half) by exact half_in_range.
  assert (H2 : (3 <= length (batteries last_stand))%nat) by (simpl; lia).
  assert (H3 : gameState last_stand = playing) by reflexivity.
  assert (H4 : score last_stand >= WIN_SCORE).
  { unfold WIN_SCORE. simpl. lra. }
  split_and!; try done.
  exact (lost_overrides_won half last_stand H1 H2 H3 H4).
Defined.

(** C3, as the code has it.  In a frame of the playing phase the win check
    reads the score of the render the frame started from, without the
    points of the frame itself: the win branch runs (and fires its
    confetti) exactly when that score is at least 1000, and the phase after
    the frame is [won] exactly when moreover a battery still stands.  Each
    rocket that step 3 removes adds exactly 20 points, which the check of
    the following frame is the first to see. *)
Theorem won_iff_rendered_score Math_random (s : State) :
  random_in_range Math_random ->
  (3 <= length (batteries s))%nat ->
  gameState s = playing ->
  exists w1 w2 w3 s',
    update_rockets Math_random s = Ok w1 /\
    update_missiles Math_random w1 = Ok w2 /\
    update_explosions w2 = Ok w3 /\
    update Math_random s = Ok s' /\
    (length (rockets w3) <= length (rockets w2))%nat /\
    score s' =
      score s +
      SCORE_PER_ROCKET * INR (length (rockets w2) - length (rockets w3)) /\
    (confetti s' = Datatypes.S (confetti s) <-> score s >= WIN_SCORE) /\
    (gameState s' = won <->
     score s >= WIN_SCORE /\
     Exists (fun b => Battery.destroyed b = false) (batteries s')).
Proof.
  intros Hrand Hlen Hp.
  destruct (update_playing_spec Math_random s Hrand Hlen Hp)
    as (w1 & w2 & w3 & s' & E1 & E2 & E3 & E & _ & Hs & Hg & Hc).
  exists w1, w2, w3, s'. split_and!; try done.
  - destruct (update_explosions_spec w2) as (w3' & E3' & _ & _ & Hl & _).
    rewrite E3 in E3'. by injection E3' as <-.
  - destruct (update_rockets_spec Math_random s) as (w1' & E1' & _ & S1 & _).
    rewrite E1 in E1'. injection E1' as <-.
    destruct (update_missiles_spec Math_random w1) as (w2' & E2' & _ & S2 & _).
    rewrite E2 in E2'. injection E2' as <-.
    destruct (update_explosions_spec w2) as (w3' & E3' & _ & S3 & Hl & _).
    rewrite E3 in E3'. injection E3' as <-.
    rewrite Hs, minus_INR by done. rewrite <- S1, <- S2.
    unfold SCORE_PER_ROCKET in *. lra.
  - rewrite Hc. destruct (decide (score s >= WIN_SCORE)); [done|].
    split; [lia|done].
  - rewrite Hg.
    destruct (forallb Battery.destroyed (batteries s')) eqn:Hall.
    + split; [done|]. intros [_ Hex].
      apply forallb_destroyed in Hall. apply Exists_exists in Hex.
      destruct Hex as (b & Hb & Hd). eapply Forall_forall in Hall; [|exact Hb].
      congruence.
    + destruct (decide (score s >= WIN_SCORE)) as [Hw|Hw].
      * split; [|done]. intros _. split; [done|].
        by apply forallb_not_destroyed.
      * split; [done|]. by intros [? _].
Qed.

Lemma won_iff_rendered_score_witness :
  random_in_range half /\
  (3 <= length (batteries match_point))%nat /\
  gameState match_point = playing /\
  exists w1 w2 w3 s',
    update_rockets half match_point = Ok w1 /\
    update_missiles half w1 = Ok w2 /\
    update_explosions w2 = Ok w3 /\
    update half match_point = Ok s' /\
    (length (rockets w3) <= length (rockets w2))%nat /\
    score s' =
      score match_point +
      SCORE_PER_ROCKET * INR (length (rockets w2) - length (rockets w3)) /\
    (confetti s' = Datatypes.S (confetti match_point) <->
     score match_point >= WIN_SCORE) /\
    (gameState s' = won <->
     score match_point >= WIN_SCORE /\
     Exists (fun b => Battery.destroyed b = false) (batteries s')).
Proof.
  assert (H1 : random_in_range half) by exact half_in_range.
  assert (H2 : (3 <= length (batteries match_point))%nat) by (simpl; lia).
  assert (H3 : gameState match_point = playing) by reflexivity.
  split_and!; try done.
  exact (won_iff_rendered_score half match_point H1 H2 H3).
Defined.

(** ** Motion *)

(** A traversal never removes an element that its callback keeps: such
    an element is either visited, and left as the callback rewrote it, or
    skipped after a removal, and left as it was. *)
Lemma forEach_struct_keeps {A S : Type}
  (cb : A -> S -> Result (option A * S)) (keep : A -> Prop) (f : A -> A) :
  (forall x s, exists r s',
     cb x s = Ok (r, s') /\ (keep x -> r = Some (f x))) ->
  forall l s,
  exists l' s',
    forEach_struct cb l s = Ok (l', s') /\
    forall x, x ∈ l -> keep x -> x ∈ l' \/ f x ∈ l'.
Proof.
  intros Hcb l. induction l as [|x rest IH1 IH2] using list_skip_ind;
    intros s.
  { exists [], s. split; [done|]. intros x Hx. by apply elem_of_nil in Hx. }
  simpl. destruct (Hcb x s) as (r & s' & -> & Hr). simpl.
  destruct r as [x'|].
  - destruct (IH1 s') as (l' & s'' & -> & Hall). simpl.
    exists (x' :: l'), s''. split; [done|].
    intros z Hz Hkeep. apply elem_of_cons in Hz. destruct Hz as [->|Hz].
    + right. specialize (Hr Hkeep). injection Hr as ->. left.
    + destruct (Hall z Hz Hkeep); [left|right]; by right.
  - destruct rest as [|y rest'].
    { exists [], s'. split; [done|].
      intros z Hz Hkeep. apply elem_of_cons in Hz. destruct Hz as [->|Hz].
      - by specialize (Hr Hkeep).
      - by apply elem_of_nil in Hz. }
    destruct (IH2 y rest' eq_refl s') as (l' & s'' & -> & Hall). simpl.
    exists (y :: l'), s''. split; [done|].
    intros z Hz Hkeep. apply elem_of_cons in Hz. destruct Hz as [->|Hz].
    + by specialize (Hr Hkeep).
    + apply elem_of_cons in Hz. destruct Hz as [->|Hz]; [left; left|].
      destruct (Hall z Hz Hkeep); [left|right]; by right.
Qed.

(** Step 1 removes no rocket that is 2 units or more from its target. *)
Lemma update_rockets_keeps_flying Math_random (w w' : State) :
  update_rockets Math_random w = Ok w' ->
  forall r, r ∈ rockets w -> ~ rocket_distance r < 2 ->
            r ∈ rockets w' \/ advance r ∈ rockets w'.
Proof.
  unfold update_rockets. rewrite forEach_eq.
  destruct (forEach_struct_keeps (update_rocket Math_random)
              (fun r => ~ rocket_distance r < 2) advance)
    with (l := rockets w) (s := w) as (l' & s' & -> & Hall).
  - intros r s. destruct (decide (rocket_distance r < 2)) as [Hd|Hd].
    + eexists _, _. split; [by apply update_rocket_impact|done].
    + eexists _, _. split; [by apply update_rocket_flight|done].
  - simpl. by intros [= <-].
Qed.

(** C8. A frame of the playing phase, step by step: [w1], [w2], [w3] and
    [w4] are the states that steps 1, 2, 3 and 4 return.  Every rocket that
    the motion update (step 1) leaves in the store is a rocket [r] of the
    store before the frame: either untouched, or moved from a distance of 2
    or more, and then its distance to its target is its old distance minus
    its speed.  Either way it has the identity, target and speed of [r] and
    its distance to its target is at most that of [r]; and no rocket that
    is 2 units or more from its target is removed.  Step 2 leaves the
    rockets alone, step 3 only removes rockets, step 4 appends the rockets
    it spawns, at most one, at the top edge, and step 5 leaves the rockets
    alone: so the rockets after the frame are those that steps 1 to 3 did
    not remove, each one no farther from its target than before, followed by
    the rocket spawned in the frame. *)
Theorem rocket_distance_never_grows Math_random (s : State) :
  random_in_range Math_random ->
  (3 <= length (batteries s))%nat ->
  gameState s = playing ->
  Forall spawn_speed (rockets s) ->
  exists w1 w2 w3 w4 s' spawned,
    update_rockets Math_random s = Ok w1 /\
    update_missiles Math_random w1 = Ok w2 /\
    update_explosions w2 = Ok w3 /\
    spawn_rockets Math_random s w3 = Ok w4 /\
    update Math_random s = Ok s' /\
    Forall (fun r' => exists r,
              r ∈ rockets s /\
              (r' = r \/
               (~ rocket_distance r < 2 /\ r' = advance r /\
                rocket_distance r' = rocket_distance r - Rocket.speed r)) /\
              same_flight r r' /\
              rocket_distance r' <= rocket_distance r) (rockets w1) /\
    (length (rockets w1) <= length (rockets s))%nat /\
    (forall r, r ∈ rockets s -> ~ rocket_distance r < 2 ->
               r ∈ rockets w1 \/ advance r ∈ rockets w1) /\
    rockets w2 = rockets w1 /\
    Forall (fun r' => r' ∈ rockets w1) (rockets w3) /\
    rockets w4 = rockets w3 ++ spawned /\
    (length spawned <= 1)%nat /\
    Forall (fun r => Rocket.y r = 0) spawned /\
    rockets s' = rockets w3 ++ spawned /\
    Forall (fun r' => exists r,
              r ∈ rockets s /\ same_flight r r' /\
              rocket_distance r' <= rocket_distance r) (rockets w3).
Proof.
  intros Hrand Hlen Hp Hspeed.
  destruct (update_rockets_spec Math_random s)
    as (w1 & E1 & F1 & _ & _ & _ & L1 & R1).
  destruct (update_missiles_spec Math_random w1)
    as (w2 & E2 & F2 & _ & R2 & _).
  destruct (update_explosions_spec w2) as (w3 & E3 & F3 & _ & _ & R3 & _).
  destruct (spawn_rockets_spec Math_random s w3 Hrand)
    as (w4 & spawned & E4 & F4 & R4 & L4 & Y4).
  assert (Hlen4 : (3 <= length (batteries w4))%nat).
  { fields_of F3. fields_of F4.
    pose proof (same_frame_length _ _ F1).
    pose proof (same_frame_length _ _ F2). congruence. }
  destruct (check_win_loss_spec s w4 Hlen4)
    as (s' & E5 & _ & _ & _ & R5 & _).
  assert (Hmotion : Forall (fun r' => exists r,
              r ∈ rockets s /\
              (r' = r \/
               (~ rocket_distance r < 2 /\ r' = advance r /\
                rocket_distance r' = rocket_distance r - Rocket.speed r)) /\
              same_flight r r' /\
              rocket_distance r' <= rocket_distance r) (rockets w1)).
  { eapply Forall_impl; [exact R1|]. simpl.
    intros r' (r & Hr & [->|[Hd ->]]).
    - exists r. split_and!; [done|by left|by repeat split|lra].
    - eapply Forall_forall in Hspeed; [|exact Hr].
      pose proof (advance_distance r Hd Hspeed) as Hdist.
      exists r. split_and!; [done|by right|apply advance_same_flight|].
      destruct Hspeed as [Hlo _]. unfold ROCKET_SPEED_MIN in Hlo. lra. }
  rewrite R2 in R3.
  exists w1, w2, w3, w4, s', spawned. split_and!; try done.
  - by rewrite (update_playing Math_random s w1 w2 w3 w4).
  - by apply (update_rockets_keeps_flying Math_random s w1).
  - eapply Forall_impl; [exact Y4|]. by intros r [_ ?].
  - congruence.
  - eapply Forall_impl; [exact R3|]. simpl. intros r' Hr'.
    eapply Forall_forall in Hmotion; [|exact Hr'].
    destruct Hmotion as (r & Hr & _ & Hsame & Hle). by exists r.
Qed.

Lemma rocket_distance_never_grows_witness :
  random_in_range half /\
  (3 <= length (batteries barrage))%nat /\
  gameState barrage = playing /\
  Forall spawn_speed (rockets barrage) /\
  exists w1 w2 w3 w4 s' spawned,
    update_rockets half barrage = Ok w1 /\
    update_missiles half w1 = Ok w2 /\
    update_explosions w2 = Ok w3 /\
    spawn_rockets half barrage w3 = Ok w4 /\
    update half barrage = Ok s' /\
    Forall (fun r' => exists r,
              r ∈ rockets barrage /\
              (r' = r \/
               (~ rocket_distance r < 2 /\ r' = advance r /\
                rocket_distance r' = rocket_distance r - Rocket.speed r)) /\
              same_flight r r' /\
              rocket_distance r' <= rocket_distance r) (rockets w1) /\
    (length (rockets w1) <= length (rockets barrage))%nat /\
    (forall r, r ∈ rockets barrage -> ~ rocket_distance r < 2 ->
               r ∈ rockets w1 \/ advance r ∈ rockets w1) /\
    rockets w2 = rockets w1 /\
    Forall (fun r' => r' ∈ rockets w1) (rockets w3) /\
    rockets w4 = rockets w3 ++ spawned /\
    (length spawned <= 1)%nat /\
    Forall (fun r => Rocket.y r = 0) spawned /\
    rockets s' = rockets w3 ++ spawned /\
    Forall (fun r' => exists r,
              r ∈ rockets barrage /\ same_flight r r' /\
              rocket_distance r' <= rocket_distance r) (rockets w3).
Proof.
  assert (H1 : random_in_range half) by exact half_in_range.
  assert (H2 : (3 <= length (batteries barrage))%nat) by (simpl; lia).
  assert (H3 : gameState barrage = playing) by reflexivity.
  assert (H4 : Forall spawn_speed (rockets barrage)).
  { repeat constructor; unfold ROCKET_SPEED_MIN, ROCKET_SPEED_MAX; simpl; lra. }
  split_and!; try done.
  exact (rocket_distance_never_grows half barrage H1 H2 H3 H4).
Defined.

(** ** The fire command *)

Lemma can_fire_test (b : Battery.t) :
  negb (Battery.destroyed b) && bool_decide (Battery.ammo b > 0) = true <->
  can_fire b.
Proof.
  unfold can_fire. rewrite andb_true_iff, negb_true_iff, bool_decide_eq_true.
  done.
Qed.

(** The scan returns the first of the nearest batteries that can fire. *)
Lemma find_nearest_battery_spec (x : number) (bs : list Battery.t) :
  match find_nearest_battery x bs with
  | Some (i, b) =>
      bs !! i = Some b /\ can_fire b /\
      forall j b', bs !! j = Some b' -> can_fire b' ->
        Rabs (Battery.x b - x) <= Rabs (Battery.x b' - x) /\
        ((j < i)%nat -> Rabs (Battery.x b - x) < Rabs (Battery.x b' - x))
  | None => Forall (fun b => ~ can_fire b) bs
  end.
Proof.
  unfold find_nearest_battery.
  assert (Inv : let acc := foldl (scan_battery x) (mkNearest O None None) bs in
    index acc = length bs /\
    match nearestBattery acc with
    | Some (i, b) =>
        minDist acc = Some (Rabs (Battery.x b - x)) /\
        bs !! i = Some b /\ can_fire b /\
        forall j b', bs !! j = Some b' -> can_fire b' ->
          Rabs (Battery.x b - x) <= Rabs (Battery.x b' - x) /\
          ((j < i)%nat -> Rabs (Battery.x b - x) < Rabs (Battery.x b' - x))
    | None => minDist acc = None /\ Forall (fun b => ~ can_fire b) bs
    end).
  { induction bs as [|b0 bs IH] using rev_ind; [by simpl|].
    rewrite foldl_app. simpl.
    destruct IH as [Hidx IH]. revert Hidx IH.
    generalize (foldl (scan_battery x) (mkNearest O None None) bs).
    intros [k m nb] Hidx IH. simpl in Hidx, IH. subst k.
    unfold scan_battery. simpl.
    destruct (negb (Battery.destroyed b0) &&
              bool_decide (Battery.ammo b0 > 0)) eqn:Hfire.
    - apply can_fire_test in Hfire.
      destruct nb as [[i b]|].
      + destruct IH as (-> & Hi & Hb & Hmin). simpl.
        destruct (bool_decide_reflect
                    (Rabs (Battery.x b0 - x) < Rabs (Battery.x b - x)))
          as [Hlt|Hge]; simpl; rewrite length_app; simpl;
          (split; [lia|]).
        * split_and!; try done.
          { by rewrite lookup_app_r, Nat.sub_diag. }
          intros j b' Hj Hb'. apply lookup_app_Some in Hj.
          destruct Hj as [Hj|[Hge Hj]].
          -- destruct (Hmin j b' Hj Hb') as [Hle _].
             split; [lra|]. intros _. lra.
          -- destruct (j - length bs)%nat eqn:E'; [|by destruct n].
             injection Hj as <-. split; [lra|]. lia.
        * split_and!; try done.
          { apply lookup_app_l_Some. done. }
          intros j b' Hj Hb'. apply lookup_app_Some in Hj.
          destruct Hj as [Hj|[Hge' Hj]].
          -- by apply Hmin.
          -- destruct (j - length bs)%nat eqn:E'; [|by destruct n].
             injection Hj as <-. split; [lra|].
             apply lookup_lt_Some in Hi. lia.
      + destruct IH as (-> & Hnone). simpl. rewrite length_app. simpl.
        split; [lia|]. split_and!; try done.
        { by rewrite lookup_app_r, Nat.sub_diag. }
        intros j b' Hj Hb'. apply lookup_app_Some in Hj.
        destruct Hj as [Hj|[Hge Hj]].
        * eapply Forall_forall in Hnone; [|by eapply list_elem_of_lookup_2].
          done.
        * destruct (j - length bs)%nat eqn:E'; [|by destruct n].
          injection Hj as <-. split; [lra|]. lia.
    - rewrite length_app. simpl. split; [lia|].
      assert (Hno : ~ can_fire b0).
      { intros H%can_fire_test. congruence. }
      destruct nb as [[i b]|].
      + destruct IH as (-> & Hi & Hb & Hmin). split_and!; try done.
        { apply lookup_app_l_Some. done. }
        intros j b' Hj Hb'. apply lookup_app_Some in Hj.
        destruct Hj as [Hj|[Hge Hj]]; [by apply Hmin|].
        destruct (j - length bs)%nat eqn:E'; [|by destruct n].
        injection Hj as <-. done.
      + destruct IH as (-> & Hnone). split; [done|].
        apply Forall_app. split; [done|]. by constructor. }
  destruct Inv as [_ Inv].
  destruct (nearestBattery (foldl (scan_battery x) (mkNearest O None None) bs))
    as [[i b]|]; tauto.
Qed.

(** The point of the canvas that [handleCanvasClick] computes. *)
Lemma handleCanvasClick_playing Math_random (e : Click) (s : State) :
  gameState s = playing -> rect_width e <> 0 -> rect_height e <> 0 ->
  handleCanvasClick Math_random e s =
  Ok (fire Math_random
        ((clientX e - rect_left e) * (CANVAS_WIDTH / rect_width e))
        ((clientY e - rect_top e) * (CANVAS_HEIGHT / rect_height e)) s).
Proof.
  intros Hp Hw Hh. unfold handleCanvasClick.
  rewrite decide_False by (by rewrite Hp; intros H; apply H).
  by rewrite !div_ok.
Qed.

(** C1, as the code has it.  A click on a canvas of non-zero width and
    height, with [(x, y)] the point of the canvas it maps to.  Outside the
    playing phase the click changes nothing.  In the playing phase: if no
    battery can fire (standing, with ammo above zero) the click changes
    nothing; otherwise the battery chosen can fire, no battery that can fire
    is nearer to [x] horizontally, none before it in the store is as near,
    its ammo drops by exactly 1, exactly one missile is appended, which
    starts and stands at the battery and is bound for [(x, y)], and apart
    from the draw of the identifier nothing else changes. *)
Theorem click_fires_nearest_battery Math_random (e : Click) (s : State) :
  rect_width e <> 0 -> rect_height e <> 0 ->
  let x := (clientX e - rect_left e) * (CANVAS_WIDTH / rect_width e) in
  let y := (clientY e - rect_top e) * (CANVAS_HEIGHT / rect_height e) in
  (gameState s <> playing -> handleCanvasClick Math_random e s = Ok s) /\
  (gameState s = playing ->
   Forall (fun b => ~ can_fire b) (batteries s) ->
   handleCanvasClick Math_random e s = Ok s) /\
  (gameState s = playing ->
   Exists can_fire (batteries s) ->
   exists i b,
     batteries s !! i = Some b /\ can_fire b /\
     (forall j b', batteries s !! j = Some b' -> can_fire b' ->
        Rabs (Battery.x b - x) <= Rabs (Battery.x b' - x) /\
        ((j < i)%nat -> Rabs (Battery.x b - x) < Rabs (Battery.x b' - x))) /\
     handleCanvasClick Math_random e s =
     Ok (mkState (gameState s) (score s) (ammo s) (rockets s)
           (missiles s ++
            [Missile.mk (Math_random (rng s)) (Battery.x b) (Battery.y b)
               x y (Battery.x b) (Battery.y b)])
           (explosions s)
           (<[i := Battery.set_ammo (Battery.ammo b - 1) b]> (batteries s))
           (cities s) (Datatypes.S (rng s)) (confetti s))).
Proof.
  intros Hw Hh x y. split.
  { intros Hp. unfold handleCanvasClick. by rewrite decide_True. }
  pose proof (find_nearest_battery_spec x (batteries s)) as Hscan.
  split; intros Hp; rewrite (handleCanvasClick_playing Math_random e s Hp Hw Hh);
    fold x y; unfold fire;
    destruct (find_nearest_battery x (batteries s)) as [[i b]|].
  - destruct Hscan as (Hi & Hb & Hmin).
    intros Hnone. eapply Forall_forall in Hnone;
      [|by eapply list_elem_of_lookup_2]. done.
  - done.
  - destruct Hscan as (Hi & Hb & Hmin).
    intros _. exists i, b. by split_and!.
  - intros Hex. apply Exists_exists in Hex.
    destruct Hex as (b & Hb & Hfire).
    eapply Forall_forall in Hscan; [|exact Hb]. done.
Qed.

Lemma click_fires_nearest_battery_witness :
  rect_width center_click <> 0 /\ rect_height center_click <> 0 /\
  let x := (clientX center_click - rect_left center_click) *
           (CANVAS_WIDTH / rect_width center_click) in
  let y := (clientY center_click - rect_top center_click) *
           (CANVAS_HEIGHT / rect_height center_click) in
  (gameState fresh_round <> playing ->
   handleCanvasClick half center_click fresh_round = Ok fresh_round) /\
  (gameState fresh_round = playing ->
   Forall (fun b => ~ can_fire b) (batteries fresh_round) ->
   handleCanvasClick half center_click fresh_round = Ok fresh_round) /\
  (gameState fresh_round = playing ->
   Exists can_fire (batteries fresh_round) ->
   exists i b,
     batteries fresh_round !! i = Some b /\ can_fire b /\
     (forall j b', batteries fresh_round !! j = Some b' -> can_fire b' ->
        Rabs (Battery.x b - x) <= Rabs (Battery.x b' - x) /\
        ((j < i)%nat -> Rabs (Battery.x b - x) < Rabs (Battery.x b' - x))) /\
     handleCanvasClick half center_click fresh_round =
     Ok (mkState (gameState fresh_round) (score fresh_round)
           (ammo fresh_round) (rockets fresh_round)
           (missiles fresh_round ++
            [Missile.mk (half (rng fresh_round)) (Battery.x b) (Battery.y b)
               x y (Battery.x b) (Battery.y b)])
           (explosions fresh_round)
           (<[i := Battery.set_ammo (Battery.ammo b - 1) b]>
              (batteries fresh_round))
           (cities fresh_round) (Datatypes.S (rng fresh_round))
           (confetti fresh_round))).
Proof.
  assert (H2 : rect_width center_click <> 0) by (simpl; lra).
  assert (H3 : rect_height center_click <> 0) by (simpl; lra).
  split; [done|]. split; [done|].
  exact (click_fires_nearest_battery half center_click fresh_round H2 H3).
Defined.

(** The scenario of the specification: a click at (400, 300) in a round
    that has just started takes one unit of ammo from the center battery,
    which has 39 left, and launches one missile bound for (400, 300). *)
Example center_click_fires_center_battery :
  handleCanvasClick half center_click fresh_round = Ok after_center_click /\
  (exists b, batteries after_center_click !! 1%nat = Some b /\
             Battery.ammo b = 39) /\
  (exists m, missiles after_center_click = [m] /\
             Missile.destX m = 400 /\ Missile.destY m = 300).
Proof.
  split_and!.
  - unfold handleCanvasClick. simpl.
    rewrite !div_ok by lra. simpl.
    unfold fire, find_nearest_battery. simpl. unfold scan_battery. simpl.
    eval_decide. simpl. eval_decide. simpl. eval_decide. simpl.
    unfold after_center_click, CANVAS_WIDTH, CANVAS_HEIGHT.
    reflexivity.
  - eexists. split; [reflexivity|]. simpl. lra.
  - eexists. split; [reflexivity|]. simpl.
    unfold CANVAS_WIDTH, CANVAS_HEIGHT. lra.
Qed.

Lemma initial_batteries_can_fire : Forall can_fire initial_batteries.
Proof. repeat constructor; simpl; lra. Qed.

(** C1 as stated fails outside the playing phase: in the menu, with three
    batteries that can fire, a click neither takes ammo nor launches a
    missile. *)
Lemma click_in_menu_fires_nothing :
  Exists can_fire (batteries initial_state) /\
  exists s',
    handleCanvasClick half center_click initial_state = Ok s' /\
    batteries s' = initial_batteries /\ missiles s' = [].
Proof.
  split; [|by exists initial_state].
  apply Exists_cons_hd. split; simpl; [done|lra].
Qed.

(** ** Impacts *)




Section MarkFirst.
Context {A : Type}.
Variable pos : A -> number * number.
Variable mark : A -> A.
Variable alive : A -> bool.
Variables tx ty : number.

#[local] Abbreviation found :=
  (fun a => hit (fst (pos a)) (snd (pos a)) tx ty).




End MarkFirst.



(** ** The life of an explosion *)

Lemma click_on_battery :
  handleCanvasClick half battery_click fresh_round = Ok point_blank.
Proof.
  unfold handleCanvasClick. simpl.
  rewrite !div_ok by lra. simpl.
  unfold fire, find_nearest_battery. simpl. unfold scan_battery. simpl.
  eval_decide. simpl. eval_decide. simpl. eval_decide. simpl.
  unfold point_blank, batteries_after_shot, CANVAS_WIDTH, CANVAS_HEIGHT.
  reflexivity.
Qed.

Lemma glow_ext (r r' : number) (g : bool) (n : nat) :
  r = r' -> glow r g n = glow r' g n.
Proof. by intros ->. Qed.

(** The frame after the click: the missile detonates where it stands and
    step 3 of the same frame already grows the explosion. *)
Lemma point_blank_frame :
  update half point_blank = Ok (glow (2 + EXPLOSION_GROWTH_RATE) true 3).
Proof.
  unfold update, update_rockets, update_missiles, update_explosions, forEach.
  simpl. unfold update_missile, find_nearest_rocket. simpl.
  eval_decide. simpl.
  unfold update_explosion, grow, forEach. simpl.
  eval_decide. simpl.
  unfold spawn_rockets, random, half. simpl. eval_decide.
  unfold check_win_loss. simpl. eval_decide. simpl.
  reflexivity.
Qed.

(** A frame with a growing explosion alone in the air. *)
Lemma glow_frame (r : number) (n : nat) :
  update half (glow r true n) =
  Ok (glow (r + EXPLOSION_GROWTH_RATE)
        (negb (bool_decide
                 (r + EXPLOSION_GROWTH_RATE >= EXPLOSION_RADIUS_MAX)))
        (Datatypes.S n)).
Proof.
  unfold update, update_rockets, update_missiles, update_explosions, forEach.
  simpl. unfold update_explosion, grow, forEach. simpl.
  destruct (decide (r + EXPLOSION_GROWTH_RATE >= EXPLOSION_RADIUS_MAX))
    as [Hr|Hr].
  - rewrite bool_decide_eq_true_2 by done. simpl.
    unfold spawn_rockets, random, half. simpl. eval_decide.
    unfold check_win_loss. simpl. eval_decide. simpl.
    reflexivity.
  - rewrite bool_decide_eq_false_2 by done. simpl.
    unfold spawn_rockets, random, half. simpl. eval_decide.
    unfold check_win_loss. simpl. eval_decide. simpl.
    reflexivity.
Qed.

Lemma fresh_round_reachable : reachable half fresh_round.
Proof. apply reachable_startGame, reachable_initial. Qed.

Lemma glow_reachable (k : nat) :
  (k <= 24)%nat ->
  reachable half (glow (2 + EXPLOSION_GROWTH_RATE * INR (S k)) true (3 + k)).
Proof.
  induction k as [|k IH]; intros Hk.
  - eapply reachable_update; [|rewrite point_blank_frame; f_equal].
    + eapply reachable_click; [apply fresh_round_reachable|].
      apply click_on_battery.
    + apply glow_ext. change (INR 1) with 1. lra.
  - eapply reachable_update; [apply IH; lia|].
    rewrite glow_frame.
    assert (Hlt : INR (S k) <= 24).
    { apply (Rle_trans _ (INR 24)); [apply le_INR; lia|].
      rewrite INR_IZR_INZ. change (Z.of_nat 24) with 24%Z. lra. }
    rewrite bool_decide_eq_false_2
      by (unfold EXPLOSION_GROWTH_RATE, EXPLOSION_RADIUS_MAX; lra).
    simpl negb. replace (3 + S k)%nat with (S (3 + k)) by lia.
    f_equal. apply glow_ext. rewrite (S_INR (S k)). lra.
Qed.

(** The explosion at its largest: 26 frames after the click. *)
Lemma peak_reachable : reachable half (glow 41 false 28).
Proof.
  eapply reachable_update; [apply (glow_reachable 24); lia|].
  rewrite glow_frame.
  assert (H25 : INR 25 = 25).
  { rewrite INR_IZR_INZ. change (Z.of_nat 25) with 25%Z. lra. }
  rewrite bool_decide_eq_true_2
    by (rewrite H25; unfold EXPLOSION_GROWTH_RATE, EXPLOSION_RADIUS_MAX; lra).
  simpl negb. f_equal. apply glow_ext. rewrite H25.
  unfold EXPLOSION_GROWTH_RATE. lra.
Qed.

(** C2 as stated fails on the code.  From a round that has just started,
    a click on the center battery and 26 frames lead to a state whose
    explosion has radius 41, above [EXPLOSION_RADIUS_MAX]: the growing
    branch adds 1.5 to 39.5 and only then stops growing, without
    clamping. *)
Lemma explosion_overshoots_maximum :
  exists s e,
    reachable half s /\ e ∈ explosions s /\
    Explosion.radius e = 41 /\ Explosion.growing e = false /\
    Explosion.radius e > EXPLOSION_RADIUS_MAX.
Proof.
  exists (glow 41 false 28), (Explosion.mk (half 1)
    ((400 - 0) * (CANVAS_WIDTH / 800)) ((580 - 0) * (CANVAS_HEIGHT / 600))
    41 false).
  split_and!; try done.
  - apply peak_reachable.
  - by left.
  - simpl. unfold EXPLOSION_RADIUS_MAX. lra.
Qed.

(** ** A kill at 980 points *)

Lemma falling_distance : rocket_distance falling = 480.
Proof.
  unfold rocket_distance. simpl.
  replace ((50 - 50) * (50 - 50) + (580 - 100) * (580 - 100))
    with (480 * 480) by lra.
  apply sqrt_square. lra.
Qed.

Lemma falling_advance :
  advance falling = Rocket.mk 0 50 (100 + 0.5) 50 580 0.5 0.
Proof.
  unfold advance. rewrite falling_distance. simpl.
  unfold Rocket.move_to. simpl. f_equal; lra.
Qed.

Lemma falling_frame (w : State) :
  update_rocket half falling w =
  Ok (Some (Rocket.mk 0 50 (100 + 0.5) 50 580 0.5 0), w).
Proof.
  rewrite update_rocket_flight by (rewrite falling_distance; lra).
  by rewrite falling_advance.
Qed.

(** C3 as stated fails on the code: at 980 points a frame removes a
    rocket caught in an explosion and the score becomes 1000, but the phase
    after that frame is still [playing]; it is the following frame that
    makes it [won]. *)
Lemma win_comes_one_frame_late :
  exists s' s'',
    score match_point = 980 /\ rockets match_point = [falling] /\
    update half match_point = Ok s' /\
    rockets s' = [] /\ score s' = 1000 /\ gameState s' = playing /\
    update half s' = Ok s'' /\ gameState s'' = won.
Proof.
  eexists _, _. split; [reflexivity|]. split; [reflexivity|].
  split.
  { unfold update. simpl. unfold update_rockets. simpl.
    rewrite forEach_eq. simpl. rewrite falling_frame. simpl.
    unfold update_missiles, update_explosions, forEach. simpl.
    unfold update_explosion, grow. simpl. eval_decide. simpl.
    rewrite forEach_eq. simpl. unfold collide. simpl. eval_decide. simpl.
    unfold spawn_rockets, random, half. simpl. eval_decide.
    unfold check_win_loss. simpl. eval_decide. simpl.
    reflexivity. }
  split; [reflexivity|]. split; [simpl; unfold SCORE_PER_ROCKET; lra|].
  split; [reflexivity|].
  split.
  { unfold update. simpl. unfold update_rockets, update_missiles,
      update_explosions, forEach. simpl.
    unfold update_explosion, grow, forEach. simpl. eval_decide. simpl.
    unfold spawn_rockets, random, half. simpl. eval_decide.
    unfold check_win_loss. simpl. eval_decide. simpl.
    reflexivity. }
  reflexivity.
Qed.

(** ** Heat seeking *)

(** The scan returns the first of the nearest rockets among those strictly
    within 300 units of the missile. *)
Lemma find_nearest_rocket_spec (m : Missile.t) (rs : list Rocket.t) :
  match find_nearest_rocket (Missile.x m) (Missile.y m) rs with
  | Some r =>
      seek_distance m r < 300 /\
      exists i, rs !! i = Some r /\
        forall j r', rs !! j = Some r' ->
          seek_distance m r <= seek_distance m r' /\
          ((j < i)%nat -> seek_distance m r < seek_distance m r')
  | None => Forall (fun r => ~ seek_distance m r < 300) rs
  end.
Proof.
  unfold find_nearest_rocket.
  assert (Inv :
    let acc := foldl (scan_rocket (Missile.x m) (Missile.y m)) (300, None) rs in
    match snd acc with
    | Some r =>
        fst acc = seek_distance m r /\ seek_distance m r < 300 /\
        exists i, rs !! i = Some r /\
          forall j r', rs !! j = Some r' ->
            seek_distance m r <= seek_distance m r' /\
            ((j < i)%nat -> seek_distance m r < seek_distance m r')
    | None => fst acc = 300 /\ Forall (fun r => ~ seek_distance m r < 300) rs
    end).
  { induction rs as [|r0 rs IH] using rev_ind; [by simpl|].
    rewrite foldl_app. simpl. revert IH.
    generalize (foldl (scan_rocket (Missile.x m) (Missile.y m)) (300, None) rs).
    intros [d nr] IH. simpl in IH.
    unfold scan_rocket. fold (seek_distance m r0). simpl.
    destruct (decide (seek_distance m r0 < d)) as [Hlt|Hge]; simpl.
    - split; [done|]. destruct nr as [r|].
      + destruct IH as (-> & Hin & i & Hi & Hmin).
        split; [lra|]. exists (length rs).
        split; [by rewrite lookup_app_r, Nat.sub_diag|].
        intros j r' Hj. apply lookup_app_Some in Hj.
        destruct Hj as [Hj|[Hge Hj]].
        * destruct (Hmin j r' Hj) as [Hle _]. split; [lra|]. intros _. lra.
        * destruct (j - length rs)%nat eqn:E'; [|by destruct n].
          injection Hj as <-. split; [lra|]. lia.
      + destruct IH as (-> & Hnone).
        split; [done|]. exists (length rs).
        split; [by rewrite lookup_app_r, Nat.sub_diag|].
        intros j r' Hj. apply lookup_app_Some in Hj.
        destruct Hj as [Hj|[Hge Hj]].
        * eapply Forall_forall in Hnone; [|by eapply list_elem_of_lookup_2].
          split; [lra|]. intros _. lra.
        * destruct (j - length rs)%nat eqn:E'; [|by destruct n].
          injection Hj as <-. split; [lra|]. lia.
    - destruct nr as [r|].
      + destruct IH as (-> & Hin & i & Hi & Hmin).
        split_and!; try done. exists i.
        split; [by apply lookup_app_l_Some|].
        intros j r' Hj. apply lookup_app_Some in Hj.
        destruct Hj as [Hj|[Hge' Hj]]; [by apply Hmin|].
        destruct (j - length rs)%nat eqn:E'; [|by destruct n].
        injection Hj as <-. split; [lra|].
        apply lookup_lt_Some in Hi. lia.
      + destruct IH as (-> & Hnone). split; [done|].
        apply Forall_app. split; [done|]. by constructor. }
  simpl in Inv.
  destruct (snd (foldl (scan_rocket (Missile.x m) (Missile.y m)) (300, None) rs))
    as [r|]; tauto.
Qed.

(** What the heat seeker does to a missile that step 2 visits: with a
    rocket strictly within 300 units, the destination becomes the position
    of the first of the nearest such rockets; with none, the missile is as
    it was. *)
Lemma reaim_spec (m : Missile.t) (rs : list Rocket.t) :
  (Forall (fun r => ~ seek_distance m r < 300) rs -> reaim rs m = m) /\
  (Exists (fun r => seek_distance m r < 300) rs ->
   exists i r,
     rs !! i = Some r /\ seek_distance m r < 300 /\
     (forall j r', rs !! j = Some r' ->
        seek_distance m r <= seek_distance m r' /\
        ((j < i)%nat -> seek_distance m r < seek_distance m r')) /\
     reaim rs m = Missile.aim_at (Rocket.x r) (Rocket.y r) m).
Proof.
  unfold reaim. pose proof (find_nearest_rocket_spec m rs) as Hscan.
  destruct (find_nearest_rocket (Missile.x m) (Missile.y m) rs) as [r|].
  - destruct Hscan as (Hin & i & Hi & Hmin). split.
    + intros Hnone. eapply Forall_forall in Hnone;
        [|by eapply list_elem_of_lookup_2]. done.
    + intros _. by exists i, r.
  - split; [done|]. intros Hex. apply Exists_exists in Hex.
    destruct Hex as (r & Hr & Hin).
    eapply Forall_forall in Hscan; [|exact Hr]. done.
Qed.

(** ** A missile behind a detonation *)

Lemma diving_frame (w : State) :
  update_rocket half diving w =
  Ok (Some (Rocket.mk 0 750 (400 + 0.5) 750 580 0.5 0), w).
Proof.
  assert (Hd : rocket_distance diving = 180).
  { unfold rocket_distance. simpl.
    replace ((750 - 750) * (750 - 750) + (580 - 400) * (580 - 400))
      with (180 * 180) by lra.
    apply sqrt_square. lra. }
  assert (Ha : advance diving = Rocket.mk 0 750 (400 + 0.5) 750 580 0.5 0).
  { unfold advance. rewrite Hd. simpl. unfold Rocket.move_to. simpl.
    f_equal; lra. }
  rewrite update_rocket_flight by (rewrite Hd; lra).
  by rewrite Ha.
Qed.

Lemma standoff_clicks :
  exists s1,
    handleCanvasClick half battery_click standoff = Ok s1 /\
    handleCanvasClick half right_click s1 = Ok crossfire.
Proof.
  eexists. split.
  - unfold handleCanvasClick. simpl.
    rewrite !div_ok by lra. simpl.
    unfold fire, find_nearest_battery. simpl. unfold scan_battery. simpl.
    eval_decide. simpl. eval_decide. simpl. eval_decide. simpl.
    reflexivity.
  - unfold handleCanvasClick. simpl.
    rewrite !div_ok by lra. simpl.
    unfold fire, find_nearest_battery. simpl. unfold scan_battery. simpl.
    eval_decide. simpl. eval_decide. simpl. eval_decide. simpl.
    unfold crossfire, interceptor, CANVAS_WIDTH, CANVAS_HEIGHT.
    reflexivity.
Qed.

(** C6 fails on the code.  A rocket dives onto the right battery; the
    player clicks on the center battery and then up on the right, and a
    frame follows.  The missile of the first click detonates where it
    stands and is spliced out of the store, so the traversal of step 2
    never visits the missile of the second click: after the frame the
    rocket lies 179.5 units from it, within the 300 units of the heat
    seeker, and yet the missile is as it was launched, bound for the point
    of the click. *)
Theorem missile_behind_detonation_not_reaimed :
  exists s1 s' r,
    handleCanvasClick half battery_click standoff = Ok s1 /\
    handleCanvasClick half right_click s1 = Ok crossfire /\
    update half crossfire = Ok s' /\
    rockets s' = [r] /\ missiles s' = [interceptor] /\
    seek_distance interceptor r < 300 /\
    (Missile.destX interceptor, Missile.destY interceptor) <>
    (Rocket.x r, Rocket.y r).
Proof.
  destruct standoff_clicks as (s1 & Hc1 & Hc2).
  exists s1. eexists _, _. split; [exact Hc1|]. split; [exact Hc2|]. split.
  { unfold update. simpl. unfold update_rockets. simpl.
    rewrite forEach_eq. simpl. rewrite diving_frame. simpl.
    unfold update_missiles. rewrite forEach_eq. simpl.
    assert (Hfar : reaim [Rocket.mk 0 750 (400 + 0.5) 750 580 0.5 0]
              (Missile.mk (half 0) (CANVAS_WIDTH / 2) (CANVAS_HEIGHT - 20)
                 ((400 - 0) * (CANVAS_WIDTH / 800))
                 ((580 - 0) * (CANVAS_HEIGHT / 600))
                 (CANVAS_WIDTH / 2) (CANVAS_HEIGHT - 20)) =
              Missile.mk (half 0) (CANVAS_WIDTH / 2) (CANVAS_HEIGHT - 20)
                 ((400 - 0) * (CANVAS_WIDTH / 800))
                 ((580 - 0) * (CANVAS_HEIGHT / 600))
                 (CANVAS_WIDTH / 2) (CANVAS_HEIGHT - 20)).
    { unfold reaim, find_nearest_rocket. simpl. unfold scan_rocket. simpl.
      by eval_decide. }
    rewrite update_missile_detonation
      by (simpl; rewrite Hfar; unfold missile_distance; Rcheck).
    simpl. rewrite Hfar. simpl.
    unfold update_explosions. rewrite forEach_eq. simpl.
    unfold update_explosion, grow. simpl. eval_decide. simpl.
    rewrite forEach_eq. simpl. unfold collide. simpl. eval_decide. simpl.
    unfold spawn_rockets, random, half. simpl. eval_decide.
    unfold check_win_loss. simpl. eval_decide. simpl.
    reflexivity. }
  split; [reflexivity|]. split; [reflexivity|]. split.
  - unfold seek_distance, interceptor, CANVAS_WIDTH, CANVAS_HEIGHT. simpl.
    apply sqrt_lt_bound; lra.
  - unfold interceptor, CANVAS_HEIGHT. simpl. intros [= _ H]. lra.
Qed.

(** ** What every reachable state satisfies *)

Lemma fresh_ok (e : Explosion.t) : fresh e -> explosion_ok e.
Proof.
  intros [Hr Hg]. unfold explosion_ok. rewrite Hg, Hr. split.
  - exists O. change (INR 0) with 0. lra.
  - unfold EXPLOSION_RADIUS_MAX. lra.
Qed.

Lemma grow_ok (e : Explosion.t) : explosion_ok e -> explosion_ok (fst (grow e)).
Proof.
  unfold explosion_ok, grow.
  destruct (Explosion.growing e) eqn:Hg; simpl.
  - intros [[k Hk] Hlt].
    destruct (decide (Explosion.radius e + EXPLOSION_GROWTH_RATE >=
                      EXPLOSION_RADIUS_MAX)) as [Hge|Hge]; simpl.
    + unfold EXPLOSION_GROWTH_RATE, EXPLOSION_RADIUS_MAX in *.
      assert (Hk25 : (k <= 25)%nat).
      { destruct (le_lt_dec k 25) as [|H26]; [done|]. exfalso.
        apply le_INR in H26. rewrite (INR_IZR_INZ 26) in H26.
        change (Z.of_nat 26) with 26%Z in H26. lra. }
      apply le_INR in Hk25. rewrite (INR_IZR_INZ 25) in Hk25.
      change (Z.of_nat 25) with 25%Z in Hk25. lra.
    + rewrite Hg. split; [|lra]. exists (S k). rewrite S_INR, Hk.
      unfold EXPLOSION_GROWTH_RATE. lra.
  - rewrite Hg. unfold EXPLOSION_GROWTH_RATE. lra.
Qed.

Lemma spawn_rockets_frame Math_random (s w w' : State) :
  spawn_rockets Math_random s w = Ok w' ->
  explosions w' = explosions w /\ batteries w' = batteries w /\
  cities w' = cities w.
Proof.
  unfold spawn_rockets, spawnRocket, random. simpl.
  repeat match goal with
         | |- context [decide ?P] => destruct (decide P)
         | |- context [match ?l !! ?i with _ => _ end] =>
             destruct (l !! i)
         end; intros [= <-]; done.
Qed.

Lemma check_win_loss_frame (s w w' : State) :
  check_win_loss s w = Ok w' ->
  explosions w' = explosions w /\ batteries w' = batteries w /\
  cities w' = cities w.
Proof.
  unfold check_win_loss.
  destruct (decide (score s >= WIN_SCORE)); simpl;
    destruct (forallb Battery.destroyed (batteries w)); simpl;
    repeat match goal with
           | |- context [match ?l !! ?i with _ => _ end] =>
               destruct (l !! i)
           end; intros [= <-]; done.
Qed.

(** A frame keeps the batteries and cities where they stand, and the
    explosions within their bounds. *)
Lemma update_keeps Math_random (s s' : State) :
  update Math_random s = Ok s' ->
  (standard_layout s -> standard_layout s') /\
  (Forall explosion_ok (explosions s) -> Forall explosion_ok (explosions s')).
Proof.
  unfold update. destruct (decide (gameState s <> playing)).
  { by intros [= <-]. }
  destruct (update_rockets_spec Math_random s)
    as (w1 & -> & F1 & _ & _ & (new1 & X1 & N1) & _).
  destruct (update_missiles_spec Math_random w1)
    as (w2 & E2 & F2 & _ & _ & _ & _ & (new2 & X2 & N2) & _).
  destruct (update_explosions_spec w2) as (w3 & E3 & F3 & _ & _ & _ & X3).
  simpl. rewrite E2. simpl. rewrite E3. simpl.
  destruct (spawn_rockets Math_random s w3) as [w4|] eqn:E4; simpl; [|done].
  intros E5.
  destruct (spawn_rockets_frame _ _ _ _ E4) as (X4 & B4 & C4).
  destruct (check_win_loss_frame _ _ _ E5) as (X5 & B5 & C5).
  fields_of F3. split.
  - intros [Hb Hc]. unfold standard_layout, battery_positions, city_positions.
    destruct F1 as (_ & _ & _ & Hb1 & Hc1).
    destruct F2 as (_ & _ & _ & Hb2 & Hc2).
    unfold battery_positions, city_positions in *.
    rewrite B5, B4, C5, C4. split; congruence.
  - intros Hok. rewrite X5, X4.
    eapply Forall_impl; [exact X3|]. simpl. intros e' (e & He & Hcase).
    assert (Hok2 : explosion_ok e).
    { rewrite X2, X1 in He. apply elem_of_app in He.
      destruct He as [He|He].
      - apply elem_of_app in He. destruct He as [He|He].
        + eapply Forall_forall in Hok; [exact Hok|done].
        + apply fresh_ok. eapply Forall_forall in N1; [exact N1|done].
      - apply fresh_ok. eapply Forall_forall in N2; [exact N2|done]. }
    destruct Hcase as [->| ->]; [done|by apply grow_ok].
Qed.

(** A click keeps the batteries where they stand, and leaves the cities and
    the explosions alone. *)
Lemma click_keeps Math_random (e : Click) (s s' : State) :
  handleCanvasClick Math_random e s = Ok s' ->
  battery_positions s' = battery_positions s /\
  cities s' = cities s /\ explosions s' = explosions s.
Proof.
  unfold handleCanvasClick.
  destruct (decide (gameState s <> playing)); [by intros [= <-]|].
  unfold div. destruct (decide (rect_width e = 0)); [done|].
  destruct (decide (rect_height e = 0)); [done|]. simpl.
  intros [= <-]. unfold fire.
  set (x := (clientX e - rect_left e) * (CANVAS_WIDTH / rect_width e)).
  pose proof (find_nearest_battery_spec x (batteries s)) as Hscan.
  destruct (find_nearest_battery x (batteries s)) as [[i b]|]; [|done].
  destruct Hscan as (Hi & _). split_and!; try done.
  unfold battery_positions. simpl.
  rewrite list_fmap_insert. apply list_insert_id.
  by rewrite list_lookup_fmap, Hi.
Qed.

Lemma reachable_keeps Math_random (s : State) :
  reachable Math_random s ->
  standard_layout s /\ Forall explosion_ok (explosions s).
Proof.
  induction 1 as [|s _ _|s e s' _ [IHl IHx] Hclick|s s' _ [IHl IHx] Hupd].
  - by split.
  - by split.
  - destruct (click_keeps _ _ _ _ Hclick) as (Hb & Hc & Hx).
    split; [|by rewrite Hx].
    destruct IHl as [Hl1 Hl2]. unfold standard_layout, city_positions in *.
    rewrite Hb, Hc. by split.
  - destruct (update_keeps _ _ _ Hupd) as [Hl Hx]. auto.
Qed.

(** C2, as the code has it.  In every reachable state the radius of every
    explosion in the store is at most 41.  While an explosion grows its
    radius is 2 plus a whole number of steps of 1.5 and is below 40; a
    visit of step 3 adds 1.5 and stops the growth as soon as the sum is 40
    or more, without clamping it.  Once it shrinks a visit takes 1.5 off and
    splices the explosion out when 0 or less is left. *)
Theorem explosion_radius_at_most_41 Math_random (s : State) :
  reachable Math_random s ->
  Forall (fun e =>
    Explosion.radius e <= 41 /\
    (Explosion.growing e = true ->
     (exists k : nat,
        Explosion.radius e = 2 + EXPLOSION_GROWTH_RATE * INR k) /\
     Explosion.radius e < EXPLOSION_RADIUS_MAX /\
     grow e =
       (Explosion.mk (Explosion.id e) (Explosion.x e) (Explosion.y e)
          (Explosion.radius e + EXPLOSION_GROWTH_RATE)
          (negb (bool_decide
                   (Explosion.radius e + EXPLOSION_GROWTH_RATE >=
                    EXPLOSION_RADIUS_MAX))),
        false)) /\
    (Explosion.growing e = false ->
     grow e =
       (Explosion.mk (Explosion.id e) (Explosion.x e) (Explosion.y e)
          (Explosion.radius e - EXPLOSION_GROWTH_RATE) false,
        bool_decide (Explosion.radius e - EXPLOSION_GROWTH_RATE <= 0))))
    (explosions s).
Proof.
  intros Hreach. destruct (reachable_keeps _ _ Hreach) as [_ Hok].
  eapply Forall_impl; [exact Hok|]. simpl. intros e He.
  unfold explosion_ok in He. split_and!.
  - destruct (Explosion.growing e); [|done].
    destruct He as [_ Hlt]. unfold EXPLOSION_RADIUS_MAX in Hlt. lra.
  - intros Hg. rewrite Hg in He. destruct He as [Hk Hlt].
    split_and!; try done. unfold grow. rewrite Hg. simpl.
    destruct (decide (Explosion.radius e + EXPLOSION_GROWTH_RATE >=
                      EXPLOSION_RADIUS_MAX)) as [Hge|Hge].
    + by rewrite bool_decide_eq_true_2.
    + rewrite bool_decide_eq_false_2 by done. simpl.
      unfold Explosion.set_radius. simpl. by rewrite Hg.
  - intros Hg. unfold grow. rewrite Hg. simpl.
    unfold Explosion.set_radius. simpl. by rewrite Hg.
Qed.

Lemma explosion_radius_at_most_41_witness :
  reachable half (glow 41 false 28) /\
  Forall (fun e =>
    Explosion.radius e <= 41 /\
    (Explosion.growing e = true ->
     (exists k : nat,
        Explosion.radius e = 2 + EXPLOSION_GROWTH_RATE * INR k) /\
     Explosion.radius e < EXPLOSION_RADIUS_MAX /\
     grow e =
       (Explosion.mk (Explosion.id e) (Explosion.x e) (Explosion.y e)
          (Explosion.radius e + EXPLOSION_GROWTH_RATE)
          (negb (bool_decide
                   (Explosion.radius e + EXPLOSION_GROWTH_RATE >=
                    EXPLOSION_RADIUS_MAX))),
        false)) /\
    (Explosion.growing e = false ->
     grow e =
       (Explosion.mk (Explosion.id e) (Explosion.x e) (Explosion.y e)
          (Explosion.radius e - EXPLOSION_GROWTH_RATE) false,
        bool_decide (Explosion.radius e - EXPLOSION_GROWTH_RATE <= 0))))
    (explosions (glow 41 false 28)).
Proof.
  split; [exact peak_reachable|].
  exact (explosion_radius_at_most_41 half (glow 41 false 28) peak_reachable).
Defined.

Lemma check_win_loss_rockets (s w w' : State) :
  check_win_loss s w = Ok w' -> rockets w' = rockets w.
Proof.
  unfold check_win_loss.
  destruct (decide (score s >= WIN_SCORE)); simpl;
    destruct (forallb Battery.destroyed (batteries w)); simpl;
    repeat match goal with
           | |- context [match ?l !! ?i with _ => _ end] =>
               destruct (l !! i)
           end; intros [= <-]; done.
Qed.

Lemma click_rockets Math_random (e : Click) (s s' : State) :
  handleCanvasClick Math_random e s = Ok s' -> rockets s' = rockets s.
Proof.
  unfold handleCanvasClick.
  destruct (decide (gameState s <> playing)); [by intros [= <-]|].
  unfold div. destruct (decide (rect_width e = 0)); [done|].
  destruct (decide (rect_height e = 0)); [done|]. simpl.
  intros [= <-]. unfold fire.
  by destruct (find_nearest_battery _ (batteries s)) as [[i b]|].
Qed.

(** With draws of [Math.random()] in range, every rocket of a reachable
    state has a speed that [spawnRocket] gives. *)
Lemma reachable_speeds Math_random (s : State) :
  random_in_range Math_random ->
  reachable Math_random s -> Forall spawn_speed (rockets s).
Proof.
  intros Hrand.
  induction 1 as [|s _ _|s e s' _ IH Hclick|s s' _ IH Hupd].
  - constructor.
  - constructor.
  - by rewrite (click_rockets _ _ _ _ Hclick).
  - revert Hupd. unfold update.
    destruct (decide (gameState s <> playing)); [by intros [= <-]|].
    destruct (update_rockets_spec Math_random s)
      as (w1 & -> & _ & _ & _ & _ & _ & R1).
    destruct (update_missiles_spec Math_random w1)
      as (w2 & E2 & _ & _ & R2 & _).
    destruct (update_explosions_spec w2) as (w3 & E3 & _ & _ & _ & R3 & _).
    destruct (spawn_rockets_spec Math_random s w3 Hrand)
      as (w4 & spawned & E4 & _ & R4 & _ & N4).
    simpl. rewrite E2. simpl. rewrite E3. simpl. rewrite E4. simpl.
    intros E5. rewrite (check_win_loss_rockets _ _ _ E5), R4.
    apply Forall_app. split.
    + eapply Forall_impl; [exact R3|]. simpl. intros r' Hr'.
      rewrite R2 in Hr'. eapply Forall_forall in R1; [|exact Hr'].
      destruct R1 as (r & Hr & [->|[_ ->]]);
        eapply Forall_forall in IH; try exact Hr; done.
    + eapply Forall_impl; [exact N4|]. simpl. by intros r [? _].
Qed.

(** Every reachable state has its three batteries. *)
Lemma reachable_batteries Math_random (s : State) :
  reachable Math_random s -> length (batteries s) = 3%nat.
Proof.
  intros Hr. destruct (reachable_keeps _ _ Hr) as [[Hb _] _].
  unfold battery_positions in Hb. apply (f_equal length) in Hb.
  by rewrite !length_map in Hb.
Qed.

(** * Properties of a round *)

(** ** Batteries and cities *)

Lemma INR_20 : INR 20 = 20.
Proof. rewrite INR_IZR_INZ. change (Z.of_nat 20) with 20%Z. lra. Qed.

Lemma INR_40 : INR 40 = 40.
Proof. rewrite INR_IZR_INZ. change (Z.of_nat 40) with 40%Z. lra. Qed.

Lemma struck_map (f : Battery.t -> bool) (l l1 : list Battery.t) :
  Forall2 struck l l1 ->
  Forall2 struck l (map (fun b => if f b then Battery.destroy b else b) l1).
Proof.
  induction 1 as [|b b1 l l1 Hb _ IH]; simpl; constructor; [|done].
  destruct (f b1); [|done].
  destruct Hb as [->| ->]; by right.
Qed.

Lemma razed_map (f : City.t -> bool) (l l1 : list City.t) :
  Forall2 razed l l1 ->
  Forall2 razed l (map (fun c => if f c then City.destroy c else c) l1).
Proof.
  induction 1 as [|c c1 l l1 Hc _ IH]; simpl; constructor; [|done].
  destruct (f c1); [|done].
  destruct Hc as [->| ->]; by right.
Qed.

Lemma struck_refl (l : list Battery.t) : Forall2 struck l l.
Proof. induction l; constructor; [by left|done]. Qed.

Lemma razed_refl (l : list City.t) : Forall2 razed l l.
Proof. induction l; constructor; [by left|done]. Qed.

(** Step 1 only ever destroys batteries and cities. *)
Lemma update_rockets_structures Math_random (w : State) :
  exists w1,
    update_rockets Math_random w = Ok w1 /\
    Forall2 struck (batteries w) (batteries w1) /\
    Forall2 razed (cities w) (cities w1).
Proof.
  unfold update_rockets. rewrite forEach_eq.
  destruct (forEach_struct_inv (update_rocket Math_random)
    (fun w' => Forall2 struck (batteries w) (batteries w') /\
               Forall2 razed (cities w) (cities w'))
    (fun _ _ => True))
    with (l := rockets w) (s := w)
    as (rs & w' & -> & (Hb & Hc) & _ & _).
  - intros rocket w0 (Hb & Hc).
    destruct (decide (rocket_distance rocket < 2)) as [Hd|Hd].
    + exists None, (impact Math_random rocket w0).
      split; [by apply update_rocket_impact|]. split; [|done].
      unfold impact. simpl. split; [by apply struck_map|by apply razed_map].
    + exists (Some (advance rocket)), w0.
      split; [by apply update_rocket_flight|]. done.
  - split; [apply struck_refl|apply razed_refl].
  - simpl. by exists (set_rockets rs w').
Qed.

(** A frame only ever destroys batteries and cities. *)
Lemma update_structures Math_random (s s' : State) :
  update Math_random s = Ok s' ->
  Forall2 struck (batteries s) (batteries s') /\
  Forall2 razed (cities s) (cities s').
Proof.
  unfold update. destruct (decide (gameState s <> playing)).
  { intros [= <-]. split; [apply struck_refl|apply razed_refl]. }
  destruct (update_rockets_structures Math_random s) as (w1 & -> & Hb & Hc).
  destruct (update_missiles_spec Math_random w1)
    as (w2 & E2 & _ & _ & _ & B2 & C2 & _).
  destruct (update_explosions_spec w2) as (w3 & E3 & F3 & _).
  simpl. rewrite E2. simpl. rewrite E3. simpl.
  destruct (spawn_rockets Math_random s w3) as [w4|] eqn:E4; simpl; [|done].
  intros E5.
  destruct (spawn_rockets_frame _ _ _ _ E4) as (_ & B4 & C4).
  destruct (check_win_loss_frame _ _ _ E5) as (_ & B5 & C5).
  fields_of F3. rewrite B5, B4, C5, C4.
  replace (batteries w3) with (batteries w1) by congruence.
  replace (cities w3) with (cities w1) by congruence. done.
Qed.

(** What a click does to the batteries: nothing, or one unit of ammo less
    for one battery that can fire. *)
Lemma click_batteries Math_random (e : Click) (s s' : State) :
  handleCanvasClick Math_random e s = Ok s' ->
  cities s' = cities s /\
  (batteries s' = batteries s \/
   exists i b,
     batteries s !! i = Some b /\ can_fire b /\
     batteries s' =
       <[i := Battery.set_ammo (Battery.ammo b - 1) b]> (batteries s)).
Proof.
  unfold handleCanvasClick.
  destruct (decide (gameState s <> playing)); [intros [= <-]; auto|].
  unfold div. destruct (decide (rect_width e = 0)); [done|].
  destruct (decide (rect_height e = 0)); [done|]. simpl.
  intros [= <-]. unfold fire.
  set (x := (clientX e - rect_left e) * (CANVAS_WIDTH / rect_width e)).
  pose proof (find_nearest_battery_spec x (batteries s)) as Hscan.
  destruct (find_nearest_battery x (batteries s)) as [[i b]|]; [|auto].
  destruct Hscan as (Hi & Hb & _). split; [done|]. right. by exists i, b.
Qed.

Lemma struck_whole_ammo (l l' : list Battery.t) :
  Forall2 struck l l' -> Forall whole_ammo l ->
  Forall whole_ammo l' /\
  map Battery.maxAmmo l' = map Battery.maxAmmo l.
Proof.
  induction 1 as [|b b' l l' Hb _ IH]; [done|].
  intros Hall. apply Forall_cons in Hall. destruct Hall as [Hw Hall].
  destruct (IH Hall) as [IH1 IH2]. simpl. rewrite IH2.
  destruct Hb as [->| ->]; (split; [constructor; [|done]|done]); [done|].
  destruct Hw as [(k & Hk & Hle) _]. split; [|done].
  exists O. simpl. change (INR 0) with 0. split; [done|].
  pose proof (pos_INR k). lra.
Qed.

Lemma fired_whole_ammo (b : Battery.t) :
  whole_ammo b -> can_fire b ->
  whole_ammo (Battery.set_ammo (Battery.ammo b - 1) b).
Proof.
  intros [(k & Hk & Hle) _] [Hd Ha]. split; simpl; [|congruence].
  destruct k as [|k].
  { rewrite Hk in Ha. change (INR 0) with 0 in Ha. lra. }
  exists k. rewrite Hk, S_INR. split; [lra|]. rewrite S_INR in Hle. lra.
Qed.

Lemma initial_batteries_whole :
  Forall whole_ammo initial_batteries /\
  map Battery.maxAmmo initial_batteries = [20; 40; 20].
Proof.
  split; [|done].
  repeat constructor; simpl; try done.
  - exists 20%nat. rewrite INR_20. lra.
  - exists 40%nat. rewrite INR_40. lra.
  - exists 20%nat. rewrite INR_20. lra.
Qed.

(** The ammo of the batteries stays whole and within the capacities.  *)
Lemma reachable_whole Math_random (s : State) :
  reachable Math_random s ->
  Forall whole_ammo (batteries s) /\
  map Battery.maxAmmo (batteries s) = [20; 40; 20].
Proof.
  induction 1 as [|s _ _|s e s' _ [IH1 IH2] Hclick|s s' _ [IH1 IH2] Hupd].
  - apply initial_batteries_whole.
  - apply initial_batteries_whole.
  - destruct (click_batteries _ _ _ _ Hclick) as [_ [->|(i & b & Hi & Hb & ->)]];
      [done|].
    split.
    + apply Forall_insert; [done|].
      apply fired_whole_ammo; [|done].
      eapply Forall_forall in IH1; [exact IH1|by eapply list_elem_of_lookup_2].
    + rewrite <- IH2. rewrite list_fmap_insert. apply list_insert_id.
      by rewrite list_lookup_fmap, Hi.
  - destruct (update_structures _ _ _ Hupd) as [Hb _].
    destruct (struck_whole_ammo _ _ Hb IH1) as [H1 H2].
    split; [done|congruence].
Qed.

(** X1. In every reachable state the ammo of each battery is a whole
    number between 0 and its capacity, a destroyed battery has no ammo, and
    the capacities are 20, 40 and 20. *)
Theorem reachable_ammo_whole Math_random (s : State) :
  reachable Math_random s ->
  map Battery.maxAmmo (batteries s) = [20; 40; 20] /\
  Forall (fun b =>
    (exists k : nat, Battery.ammo b = INR k) /\
    0 <= Battery.ammo b <= Battery.maxAmmo b /\
    (Battery.destroyed b = true -> Battery.ammo b = 0)) (batteries s).
Proof.
  intros Hreach. destruct (reachable_whole _ _ Hreach) as [Hwhole Hcap].
  split; [exact Hcap|].
  eapply Forall_impl; [exact Hwhole|]. simpl.
  intros b [(k & Hk & Hle) Hd]. pose proof (pos_INR k) as Hpos.
  split_and!; [by exists k|lra|lra|exact Hd].
Qed.

Lemma reachable_ammo_whole_witness :
  reachable half (glow 41 false 28) /\
  map Battery.maxAmmo (batteries (glow 41 false 28)) = [20; 40; 20] /\
  Forall (fun b =>
    (exists k : nat, Battery.ammo b = INR k) /\
    0 <= Battery.ammo b <= Battery.maxAmmo b /\
    (Battery.destroyed b = true -> Battery.ammo b = 0))
    (batteries (glow 41 false 28)).
Proof.
  split; [exact peak_reachable|].
  exact (reachable_ammo_whole half (glow 41 false 28) peak_reachable).
Defined.

Lemma struck_worn (l l' : list Battery.t) :
  Forall2 struck l l' -> Forall whole_ammo l -> Forall2 worn l l'.
Proof.
  induction 1 as [|b b' l l' Hb _ IH]; [constructor|].
  intros Hall. apply Forall_cons in Hall. destruct Hall as [Hw Hall].
  constructor; [|by apply IH].
  destruct Hw as [(k & Hk & _) _]. pose proof (pos_INR k).
  destruct Hb as [->| ->]; unfold worn; simpl; split_and!; try done; lra.
Qed.

Lemma razed_ruined (l l' : list City.t) :
  Forall2 razed l l' -> Forall2 ruined l l'.
Proof.
  induction 1 as [|c c' l l' Hc _ IH]; constructor; [|done].
  destruct Hc as [->| ->]; by unfold ruined.
Qed.

Lemma worn_refl (l : list Battery.t) : Forall2 worn l l.
Proof.
  induction l; constructor; [|done]. unfold worn. split_and!; try done; lra.
Qed.

(** X2. From a reachable state, a frame or a click leaves every battery and
    city where it stands, with its capacity; no battery gains ammo, and no
    battery or city that is destroyed comes back. *)
Theorem round_only_wears Math_random (s s' : State) :
  reachable Math_random s ->
  (update Math_random s = Ok s' \/
   exists e, handleCanvasClick Math_random e s = Ok s') ->
  Forall2 worn (batteries s) (batteries s') /\
  Forall2 ruined (cities s) (cities s').
Proof.
  intros Hreach Hstep.
  destruct (reachable_whole _ _ Hreach) as [Hw _].
  destruct Hstep as [Hupd|[e Hclick]].
  - destruct (update_structures _ _ _ Hupd) as [Hb Hc].
    split; [by apply struck_worn|by apply razed_ruined].
  - destruct (click_batteries _ _ _ _ Hclick)
      as [-> [->|(i & b & Hi & Hb & ->)]].
    + split; [apply worn_refl|apply razed_ruined, razed_refl].
    + split; [|apply razed_ruined, razed_refl].
      apply Forall2_same_length_lookup. split; [by rewrite length_insert|].
      intros j b1 b2 H1 H2. destruct (decide (i = j)) as [->|Hne].
      * rewrite list_lookup_insert_eq in H2 by (by eapply lookup_lt_Some).
        injection H2 as <-. rewrite Hi in H1. injection H1 as <-.
        unfold worn. simpl. split_and!; try done; lra.
      * rewrite list_lookup_insert_ne in H2 by done.
        rewrite H1 in H2. injection H2 as <-.
        unfold worn. split_and!; try done; lra.
Qed.

Lemma round_only_wears_witness :
  reachable half fresh_round /\
  (update half fresh_round = Ok point_blank \/
   exists e, handleCanvasClick half e fresh_round = Ok point_blank) /\
  Forall2 worn (batteries fresh_round) (batteries point_blank) /\
  Forall2 ruined (cities fresh_round) (cities point_blank).
Proof.
  assert (H1 : reachable half fresh_round) by exact fresh_round_reachable.
  assert (H2 : update half fresh_round = Ok point_blank \/
               exists e, handleCanvasClick half e fresh_round = Ok point_blank).
  { right. exists battery_click. exact click_on_battery. }
  split; [done|]. split; [done|].
  exact (round_only_wears half fresh_round point_blank H1 H2).
Defined.

(** ** Score and phase *)

Lemma update_noop_unless_playing_aux Math_random (s : State) :
  gameState s <> playing -> update Math_random s = Ok s.
Proof. intros Hp. unfold update. by rewrite decide_True. Qed.

Lemma spawn_rockets_cells Math_random (s w w' : State) :
  spawn_rockets Math_random s w = Ok w' ->
  gameState w' = gameState w /\ score w' = score w /\
  missiles w' = missiles w /\ confetti w' = confetti w.
Proof.
  unfold spawn_rockets, spawnRocket, random. simpl.
  repeat match goal with
         | |- context [decide ?P] => destruct (decide P)
         | |- context [match ?l !! ?i with _ => _ end] =>
             destruct (l !! i)
         end; intros [= <-]; done.
Qed.

Lemma check_win_loss_cells (s w w' : State) :
  check_win_loss s w = Ok w' ->
  gameState w' = phase_after s w /\ score w' = score w /\
  missiles w' = missiles w /\ ammo_of (batteries w') = Some (ammo w').
Proof.
  unfold check_win_loss, phase_after, ammo_of.
  destruct (decide (score s >= WIN_SCORE)); simpl;
    destruct (forallb Battery.destroyed (batteries w)); simpl;
    destruct (batteries w !! 0%nat) eqn:H0; try done;
    destruct (batteries w !! 1%nat) eqn:H1; try done;
    destruct (batteries w !! 2%nat) eqn:H2; try done;
    intros [= <-]; simpl; by rewrite ?H0, ?H1, ?H2.
Qed.

(** What a frame of the playing phase does to the cells of the component,
    whenever it returns. *)
Lemma update_cells Math_random (s s' : State) :
  gameState s = playing ->
  update Math_random s = Ok s' ->
  gameState s' <> menu /\
  (exists k : nat, score s' = score s + SCORE_PER_ROCKET * INR k) /\
  ammo_of (batteries s') = Some (ammo s').
Proof.
  intros Hp. unfold update.
  rewrite decide_False by (by rewrite Hp; intros H; apply H).
  destruct (update_rockets_spec Math_random s)
    as (w1 & -> & F1 & S1 & _).
  destruct (update_missiles_spec Math_random w1)
    as (w2 & E2 & F2 & S2 & _).
  destruct (update_explosions_spec w2) as (w3 & E3 & F3 & S3 & L3 & _).
  simpl. rewrite E2. simpl. rewrite E3. simpl.
  destruct (spawn_rockets Math_random s w3) as [w4|] eqn:E4; simpl; [|done].
  intros E5.
  destruct (spawn_rockets_cells _ _ _ _ E4) as (G4 & S4 & _).
  destruct (check_win_loss_cells _ _ _ E5) as (G5 & S5 & _ & A5).
  fields_of F3. split_and!; [|exists (length (rockets w2) - length (rockets w3))%nat|done].
  - rewrite G5. unfold phase_after.
    destruct (forallb _ _); [done|]. destruct (decide _); [done|].
    destruct F1 as (G1 & _). destruct F2 as (G2 & _). congruence.
  - rewrite minus_INR by done. rewrite S5, S4, <- S1, <- S2.
    unfold SCORE_PER_ROCKET in *. lra.
Qed.

Lemma click_cells Math_random (e : Click) (s s' : State) :
  handleCanvasClick Math_random e s = Ok s' ->
  gameState s' = gameState s /\ score s' = score s /\
  (gameState s <> playing -> s' = s).
Proof.
  unfold handleCanvasClick.
  destruct (decide (gameState s <> playing)); [by intros [= <-]|].
  unfold div. destruct (decide (rect_width e = 0)); [done|].
  destruct (decide (rect_height e = 0)); [done|]. simpl.
  intros [= <-]. unfold fire.
  by destruct (find_nearest_battery _ (batteries s)) as [[i b]|].
Qed.

(** X3. In every reachable state the score is a whole number of times
    [SCORE_PER_ROCKET]; in particular it is never negative. *)
Theorem reachable_score_multiple Math_random (s : State) :
  reachable Math_random s ->
  exists k : nat, score s = SCORE_PER_ROCKET * INR k.
Proof.
  induction 1 as [|s _ _|s e s' _ [k IH] Hclick|s s' _ [k IH] Hupd].
  - exists O. simpl. change (INR 0) with 0. lra.
  - exists O. simpl. change (INR 0) with 0. lra.
  - destruct (click_cells _ _ _ _ Hclick) as (_ & -> & _). by exists k.
  - destruct (decide (gameState s = playing)) as [Hp|Hp].
    + destruct (update_cells _ _ _ Hp Hupd) as (_ & [j Hj] & _).
      exists (k + j)%nat. rewrite Hj, IH, plus_INR. lra.
    + rewrite (update_noop_unless_playing_aux Math_random s Hp) in Hupd.
      injection Hupd as <-. by exists k.
Qed.

Lemma reachable_score_multiple_witness :
  reachable half (glow 41 false 28) /\
  exists k : nat, score (glow 41 false 28) = SCORE_PER_ROCKET * INR k.
Proof.
  split; [exact peak_reachable|].
  exact (reachable_score_multiple half (glow 41 false 28) peak_reachable).
Defined.

(** X4. The phase never goes back to the menu: a reachable state in the
    [menu] phase is the state the component starts in, untouched by the
    frames and clicks that led to it. *)
Theorem menu_is_initial Math_random (s : State) :
  reachable Math_random s -> gameState s = menu -> s = initial_state.
Proof.
  induction 1 as [|s _ _|s e s' _ IH Hclick|s s' _ IH Hupd]; intros Hm.
  - done.
  - done.
  - destruct (click_cells _ _ _ _ Hclick) as (Hg & _ & Hsame).
    rewrite Hm in Hg. rewrite Hsame by (by rewrite <- Hg). apply IH. done.
  - destruct (decide (gameState s = playing)) as [Hp|Hp].
    + by destruct (update_cells _ _ _ Hp Hupd) as (Hne & _).
    + rewrite (update_noop_unless_playing_aux Math_random s Hp) in Hupd.
      injection Hupd as <-. by apply IH.
Qed.

Lemma menu_is_initial_witness :
  reachable half initial_state /\ gameState initial_state = menu /\
  initial_state = initial_state.
Proof.
  assert (H1 : reachable half initial_state) by apply reachable_initial.
  assert (H2 : gameState initial_state = menu) by reflexivity.
  split; [done|]. split; [done|].
  exact (menu_is_initial half initial_state H1 H2).
Defined.

(** ** Flight *)

(** X5. What step 2 does to a missile it visits.  The heat seeker first
    re-aims it: with no rocket strictly within 300 units the missile is as
    it was; otherwise its destination becomes the position of the nearest
    such rocket, the first in the store among equals.  Then, within 7 units
    of that destination the missile is spliced out and an explosion of
    radius 2 is appended at the destination; otherwise the missile flies on
    and nothing else changes. *)
Theorem visited_missile_seeks Math_random (m : Missile.t) (w : State) :
  (Forall (fun r => ~ seek_distance m r < 300) (rockets w) ->
   reaim (rockets w) m = m) /\
  (Exists (fun r => seek_distance m r < 300) (rockets w) ->
   exists i r,
     rockets w !! i = Some r /\ seek_distance m r < 300 /\
     (forall j r', rockets w !! j = Some r' ->
        seek_distance m r <= seek_distance m r' /\
        ((j < i)%nat -> seek_distance m r < seek_distance m r')) /\
     reaim (rockets w) m = Missile.aim_at (Rocket.x r) (Rocket.y r) m) /\
  (missile_distance (reaim (rockets w) m) < MISSILE_SPEED ->
   update_missile Math_random m w =
   Ok (None,
       set_explosions
         (explosions w ++
          [Explosion.mk (Math_random (rng w))
             (Missile.destX (reaim (rockets w) m))
             (Missile.destY (reaim (rockets w) m)) 2 true])
         (set_rng (Datatypes.S (rng w)) w))) /\
  (~ missile_distance (reaim (rockets w) m) < MISSILE_SPEED ->
   update_missile Math_random m w = Ok (Some (fly (reaim (rockets w) m)), w)).
Proof.
  destruct (reaim_spec m (rockets w)) as [H1 H2]. split_and!; try done.
  - intros Hd. by rewrite update_missile_detonation.
  - intros Hd. by rewrite update_missile_flight.
Qed.

Lemma fly_distance (m : Missile.t) :
  ~ missile_distance m < MISSILE_SPEED ->
  missile_distance (fly m) = missile_distance m - MISSILE_SPEED.
Proof.
  intros Hd.
  unfold missile_distance at 1. unfold fly. simpl.
  unfold MISSILE_SPEED in *.
  set (dx := Missile.destX m - Missile.x m).
  set (dy := Missile.destY m - Missile.y m).
  set (d := missile_distance m) in *.
  replace (Missile.destX m - (Missile.x m + dx / d * 7))
    with (dx - dx / d * 7) by (unfold dx; ring).
  replace (Missile.destY m - (Missile.y m + dy / d * 7))
    with (dy - dy / d * 7) by (unfold dy; ring).
  apply (step_towards dx dy 7); change (sqrt (dx * dx + dy * dy)) with d; lra.
Qed.

(** X6. A missile that step 2 visits 7 units or more from its destination,
    as re-aimed, ends the visit exactly 7 units nearer to it, with the same
    destination and launch point; the rest of the state is untouched. *)
Theorem missile_flight_step Math_random (m : Missile.t) (w : State) :
  ~ missile_distance (reaim (rockets w) m) < MISSILE_SPEED ->
  exists m',
    update_missile Math_random m w = Ok (Some m', w) /\
    missile_distance m' =
      missile_distance (reaim (rockets w) m) - MISSILE_SPEED /\
    Missile.destX m' = Missile.destX (reaim (rockets w) m) /\
    Missile.destY m' = Missile.destY (reaim (rockets w) m) /\
    Missile.startX m' = Missile.startX m /\
    Missile.startY m' = Missile.startY m /\
    Missile.id m' = Missile.id m.
Proof.
  intros Hd. exists (fly (reaim (rockets w) m)).
  split; [by apply update_missile_flight|].
  split; [by apply fly_distance|].
  unfold reaim. by destruct (find_nearest_rocket _ _ _).
Qed.

Lemma missile_flight_step_witness :
  ~ missile_distance (reaim (rockets fresh_round) interceptor)
    < MISSILE_SPEED /\
  exists m',
    update_missile half interceptor fresh_round = Ok (Some m', fresh_round) /\
    missile_distance m' =
      missile_distance (reaim (rockets fresh_round) interceptor)
      - MISSILE_SPEED /\
    Missile.destX m' =
      Missile.destX (reaim (rockets fresh_round) interceptor) /\
    Missile.destY m' =
      Missile.destY (reaim (rockets fresh_round) interceptor) /\
    Missile.startX m' = Missile.startX interceptor /\
    Missile.startY m' = Missile.startY interceptor /\
    Missile.id m' = Missile.id interceptor.
Proof.
  assert (H : ~ missile_distance (reaim (rockets fresh_round) interceptor)
                < MISSILE_SPEED).
  { unfold missile_distance, reaim, interceptor. simpl.
    unfold CANVAS_WIDTH, CANVAS_HEIGHT, MISSILE_SPEED.
    apply sqrt_ge_bound; lra. }
  split; [exact H|].
  exact (missile_flight_step half interceptor fresh_round H).
Defined.

(** X7. A rocket that step 1 visits 2 units or more from its target, with
    a speed between 0 and that distance, ends the visit nearer to its target
    by exactly its speed, and is otherwise the same rocket; the rest of the
    state is untouched. *)
Theorem rocket_flight_step Math_random (r : Rocket.t) (w : State) :
  ~ rocket_distance r < 2 ->
  0 <= Rocket.speed r <= rocket_distance r ->
  exists r',
    update_rocket Math_random r w = Ok (Some r', w) /\
    rocket_distance r' = rocket_distance r - Rocket.speed r /\
    same_flight r r'.
Proof.
  intros Hd Hsp. exists (advance r).
  split; [by apply update_rocket_flight|].
  split; [|apply advance_same_flight].
  unfold rocket_distance at 1. unfold advance. simpl.
  set (dx := Rocket.targetX r - Rocket.x r).
  set (dy := Rocket.targetY r - Rocket.y r).
  set (d := rocket_distance r) in *.
  set (sp := Rocket.speed r) in *.
  replace (Rocket.targetX r - (Rocket.x r + dx / d * sp))
    with (dx - dx / d * sp) by (unfold dx; ring).
  replace (Rocket.targetY r - (Rocket.y r + dy / d * sp))
    with (dy - dy / d * sp) by (unfold dy; ring).
  apply (step_towards dx dy sp); change (sqrt (dx * dx + dy * dy)) with d; lra.
Qed.

Lemma diving_distance : rocket_distance diving = 180.
Proof.
  unfold rocket_distance. simpl.
  replace ((750 - 750) * (750 - 750) + (580 - 400) * (580 - 400))
    with (180 * 180) by lra.
  apply sqrt_square. lra.
Qed.

Lemma rocket_flight_step_witness :
  ~ rocket_distance diving < 2 /\
  0 <= Rocket.speed diving <= rocket_distance diving /\
  exists r',
    update_rocket half diving fresh_round = Ok (Some r', fresh_round) /\
    rocket_distance r' = rocket_distance diving - Rocket.speed diving /\
    same_flight diving r'.
Proof.
  assert (H1 : ~ rocket_distance diving < 2)
    by (rewrite diving_distance; lra).
  assert (H2 : 0 <= Rocket.speed diving <= rocket_distance diving)
    by (rewrite diving_distance; simpl; lra).
  split; [exact H1|]. split; [exact H2|].
  exact (rocket_flight_step half diving fresh_round H1 H2).
Defined.

(** ** Explosions *)

Lemma INR_le_lit (k n : nat) (z : Z) :
  (k <= n)%nat -> Z.of_nat n = z -> INR k <= IZR z.
Proof.
  intros Hk <-. rewrite <- INR_IZR_INZ. by apply le_INR.
Qed.

Lemma visits_growing (id x y : number) (k : nat) :
  (k <= 25)%nat ->
  exists r,
    visits k (Explosion.mk id x y 2 true) = Some (Explosion.mk id x y r true) /\
    r = 2 + EXPLOSION_GROWTH_RATE * INR k.
Proof.
  induction k as [|k IH]; intros Hk.
  - exists 2. split; [done|]. change (INR 0) with 0. lra.
  - destruct IH as (r & Hv & Hr); [lia|].
    pose proof (INR_le_lit k 24 24%Z ltac:(lia) eq_refl) as Hle.
    simpl. rewrite Hv. unfold grow. simpl.
    unfold EXPLOSION_GROWTH_RATE, EXPLOSION_RADIUS_MAX in *.
    rewrite (decide_False (P := r + 1.5 >= 40)) by lra. simpl.
    eexists. split; [reflexivity|]. rewrite S_INR. lra.
Qed.

Lemma visits_peak (id x y : number) :
  exists r,
    visits 26 (Explosion.mk id x y 2 true) =
    Some (Explosion.mk id x y r false) /\ r = 41.
Proof.
  destruct (visits_growing id x y 25) as (r & Hv & Hr); [lia|].
  pose proof (INR_IZR_INZ 25) as H25. change (Z.of_nat 25) with 25%Z in H25.
  change (visits 26 (Explosion.mk id x y 2 true))
    with (match visits 25 (Explosion.mk id x y 2 true) with
          | Some e' => if snd (grow e') then None else Some (fst (grow e'))
          | None => None
          end).
  rewrite Hv. unfold grow. simpl.
  unfold EXPLOSION_GROWTH_RATE, EXPLOSION_RADIUS_MAX in *.
  rewrite (decide_True (P := r + 1.5 >= 40)) by lra. simpl.
  eexists. split; [reflexivity|]. simpl. lra.
Qed.

Lemma visits_shrinking (id x y : number) (j : nat) :
  (j <= 27)%nat ->
  exists r,
    visits (26 + j) (Explosion.mk id x y 2 true) =
    Some (Explosion.mk id x y r false) /\
    r = 41 - EXPLOSION_GROWTH_RATE * INR j.
Proof.
  induction j as [|j IH]; intros Hj.
  - destruct (visits_peak id x y) as (r & Hv & Hr).
    exists r. rewrite Nat.add_0_r. split; [done|].
    change (INR 0) with 0. unfold EXPLOSION_GROWTH_RATE. lra.
  - destruct IH as (r & Hv & Hr); [lia|].
    pose proof (INR_le_lit j 26 26%Z ltac:(lia) eq_refl) as Hle.
    replace (26 + S j)%nat with (S (26 + j)) by lia.
    change (visits (S (26 + j)) (Explosion.mk id x y 2 true))
      with (match visits (26 + j) (Explosion.mk id x y 2 true) with
            | Some e' => if snd (grow e') then None else Some (fst (grow e'))
            | None => None
            end).
    rewrite Hv. unfold grow. simpl.
    unfold EXPLOSION_GROWTH_RATE in *.
    rewrite bool_decide_eq_false_2 by lra.
    eexists. split; [reflexivity|]. simpl. rewrite S_INR. lra.
Qed.

(** X8. An explosion that step 3 visits on every frame lasts 54 visits:
    created with radius 2, it grows for 26 visits, to a radius of 41, then
    shrinks, is still in the store after 53 visits, with a radius of 0.5,
    and the 54th visit splices it out. *)
Theorem explosion_lasts_54_visits (id x y : number) :
  (forall n, (n <= 53)%nat ->
     is_Some (visits n (Explosion.mk id x y 2 true))) /\
  (exists r, visits 26 (Explosion.mk id x y 2 true) =
             Some (Explosion.mk id x y r false) /\ r = 41) /\
  (exists r, visits 53 (Explosion.mk id x y 2 true) =
             Some (Explosion.mk id x y r false) /\ r = 0.5) /\
  visits 54 (Explosion.mk id x y 2 true) = None.
Proof.
  split_and!.
  - intros n Hn. destruct (le_lt_dec n 25) as [H25|H25].
    + destruct (visits_growing id x y n H25) as (r & -> & _). by eexists.
    + destruct (visits_shrinking id x y (n - 26)) as (r & Hv & _); [lia|].
      replace (26 + (n - 26))%nat with n in Hv by lia.
      rewrite Hv. by eexists.
  - apply visits_peak.
  - destruct (visits_shrinking id x y 27) as (r & Hv & Hr); [lia|].
    exists r. split; [exact Hv|].
    pose proof (INR_IZR_INZ 27) as H27. change (Z.of_nat 27) with 27%Z in H27.
    unfold EXPLOSION_GROWTH_RATE in Hr. lra.
  - destruct (visits_shrinking id x y 27) as (r & Hv & Hr); [lia|].
    pose proof (INR_IZR_INZ 27) as H27. change (Z.of_nat 27) with 27%Z in H27.
    change (visits 54 (Explosion.mk id x y 2 true))
      with (match visits (26 + 27) (Explosion.mk id x y 2 true) with
            | Some e' => if snd (grow e') then None else Some (fst (grow e'))
            | None => None
            end).
    rewrite Hv. unfold grow. simpl.
    unfold EXPLOSION_GROWTH_RATE in *.
    by rewrite bool_decide_eq_true_2 by lra.
Qed.

Lemma collide_pass_spent (exp : Explosion.t) (l : list Rocket.t) (w : State) :
  Explosion.radius exp <= 0 ->
  forEach_struct (collide exp) l w = Ok (l, w).
Proof.
  intros Hr. induction l as [|r l IH]; simpl; [done|].
  rewrite collide_miss.
  - simpl. by rewrite IH.
  - unfold in_blast. intros Hin.
    pose proof (sqrt_pos ((Rocket.x r - Explosion.x exp) *
                          (Rocket.x r - Explosion.x exp) +
                          (Rocket.y r - Explosion.y exp) *
                          (Rocket.y r - Explosion.y exp))).
    simpl in Hin. lra.
Qed.

(** X9. An explosion whose radius is 0 or less after its visit (the visit
    that splices it out) destroys no rocket on that visit and awards no
    point, wherever the rockets are. *)
Theorem spent_explosion_kills_nothing (e : Explosion.t) (w : State) :
  Explosion.radius (fst (grow e)) <= 0 ->
  update_explosion e w =
  Ok (if snd (grow e) then None else Some (fst (grow e)), w).
Proof.
  intros Hr. unfold update_explosion.
  destruct (grow e) as [e' removed]. simpl in *.
  rewrite forEach_eq, collide_pass_spent by done. simpl.
  by destruct w.
Qed.

Lemma spent_explosion_kills_nothing_witness :
  Explosion.radius (fst (grow (Explosion.mk 0 50 100 0.5 false))) <= 0 /\
  update_explosion (Explosion.mk 0 50 100 0.5 false) match_point =
  Ok (if snd (grow (Explosion.mk 0 50 100 0.5 false)) then None
      else Some (fst (grow (Explosion.mk 0 50 100 0.5 false))), match_point).
Proof.
  assert (H : Explosion.radius
                (fst (grow (Explosion.mk 0 50 100 0.5 false))) <= 0).
  { simpl. unfold EXPLOSION_GROWTH_RATE. lra. }
  split; [exact H|].
  exact (spent_explosion_kills_nothing _ match_point H).
Defined.

Lemma every_other_length {A : Type} (l : list A) :
  length (every_other l) = Nat.div2 (length l).
Proof.
  induction l as [|x rest IH1 IH2] using list_skip_ind; [done|].
  destruct rest as [|y rest']; [done|].
  simpl. f_equal. by apply (IH2 y rest').
Qed.

(** X10. When every rocket of the store is inside the blast of an
    explosion, one scan of step 3 removes only every other rocket, starting
    with the first: the rockets at the second, fourth, ... places slide
    under the traversal and stay, and the score grows by 20 for each of the
    others. *)
Theorem blast_removes_every_other_rocket
  (exp : Explosion.t) (l : list Rocket.t) (w : State) :
  Forall (in_blast exp) l ->
  forEach (collide exp) l w =
  Ok (every_other l,
      set_score
        (score w +
         SCORE_PER_ROCKET * INR (length l - Nat.div2 (length l))) w).
Proof.
  rewrite forEach_eq. revert w.
  induction l as [|x rest IH1 IH2] using list_skip_ind; intros w Hall.
  { simpl. f_equal. f_equal. destruct w; unfold set_score; simpl.
    f_equal. change (INR 0) with 0. lra. }
  apply Forall_cons in Hall. destruct Hall as [Hx Hrest].
  simpl forEach_struct. rewrite collide_hit by done. simpl.
  destruct rest as [|y rest'].
  { simpl. f_equal. f_equal. unfold set_score. simpl. f_equal.
    change (INR 1) with 1. lra. }
  apply Forall_cons in Hrest. destruct Hrest as [_ Hrest'].
  rewrite (IH2 y rest' eq_refl) by done. simpl.
  f_equal. f_equal. unfold set_score. simpl. f_equal.
  pose proof (Nat.le_div2_diag_l (length rest')) as Hle.
  replace (S (length rest') - Nat.div2 (length rest'))%nat
    with (S (length rest' - Nat.div2 (length rest'))) by lia.
  rewrite S_INR. lra.
Qed.

Lemma blast_removes_every_other_rocket_witness :
  Forall (in_blast (Explosion.mk 0 50 100 9.5 true)) [falling; falling] /\
  forEach (collide (Explosion.mk 0 50 100 9.5 true)) [falling; falling]
    match_point =
  Ok (every_other [falling; falling],
      set_score
        (score match_point +
         SCORE_PER_ROCKET *
         INR (length [falling; falling] -
              Nat.div2 (length [falling; falling]))) match_point).
Proof.
  assert (H : Forall (in_blast (Explosion.mk 0 50 100 9.5 true))
                [falling; falling]).
  { repeat constructor; unfold in_blast; simpl; apply sqrt_lt_bound; lra. }
  split; [exact H|].
  exact (blast_removes_every_other_rocket _ _ match_point H).
Defined.

(** ** The spawner and its rockets *)

(** X11. With a draw of [Math.random()] in range, [spawnRocket] does
    nothing when every battery and city is destroyed, and otherwise appends
    exactly one rocket, after five draws: at the top edge, within the width
    of the canvas, with a speed from 0.25 up to but not including 0.75, and
    aimed at the position of a battery or city that is not destroyed. *)
Theorem spawnRocket_aims_at_standing Math_random (w : State) :
  random_in_range Math_random ->
  (Forall (fun b => Battery.destroyed b = true) (batteries w) ->
   Forall (fun c => City.destroyed c = true) (cities w) ->
   spawnRocket Math_random w = Ok w) /\
  (Exists (fun b => Battery.destroyed b = false) (batteries w) \/
   Exists (fun c => City.destroyed c = false) (cities w) ->
   exists r,
     spawnRocket Math_random w =
     Ok (set_rockets (rockets w ++ [r]) (set_rng (5 + rng w) w)) /\
     Rocket.y r = 0 /\ 0 <= Rocket.x r < CANVAS_WIDTH /\
     ROCKET_SPEED_MIN <= Rocket.speed r < ROCKET_SPEED_MAX /\
     ((exists b, b ∈ batteries w /\ Battery.destroyed b = false /\
                 Rocket.targetX r = Battery.x b /\
                 Rocket.targetY r = Battery.y b) \/
      (exists c, c ∈ cities w /\ City.destroyed c = false /\
                 Rocket.targetX r = City.x c /\
                 Rocket.targetY r = City.y c))).
Proof.
  intros Hrand. unfold spawnRocket.
  set (targets := _ ++ _).
  assert (Hin : forall t, t ∈ targets ->
    (exists b, b ∈ batteries w /\ Battery.destroyed b = false /\
               fst t = Battery.x b /\ snd t = Battery.y b) \/
    (exists c, c ∈ cities w /\ City.destroyed c = false /\
               fst t = City.x c /\ snd t = City.y c)).
  { intros t Ht. apply elem_of_app in Ht. destruct Ht as [Ht|Ht];
      apply list_elem_of_fmap in Ht; destruct Ht as (a & -> & Ha);
      apply list_elem_of_In, filter_In in Ha; destruct Ha as [Ha Hd];
      apply negb_true_iff in Hd; apply list_elem_of_In in Ha;
      [left|right]; by exists a. }
  split.
  - intros Hb Hc.
    assert (Hnil : targets = []).
    { destruct targets as [|t ts] eqn:Ht; [done|].
      destruct (Hin t) as [(b & Hb1 & Hb2 & _)|(c & Hc1 & Hc2 & _)];
        [by left| |].
      - eapply Forall_forall in Hb; [|exact Hb1]. congruence.
      - eapply Forall_forall in Hc; [|exact Hc1]. congruence. }
    by rewrite Hnil.
  - intros Hex.
    assert (Hn : length targets <> O).
    { unfold targets. rewrite length_app, !length_map.
      destruct Hex as [Hex|Hex]; apply Exists_exists in Hex;
        destruct Hex as (a & Ha & Hd).
      - assert (Hf : In a (List.filter
                             (fun b => negb (Battery.destroyed b))
                             (batteries w))).
        { apply filter_In. split; [by apply list_elem_of_In|by rewrite Hd]. }
        destruct (List.filter _ (batteries w)); [done|simpl; lia].
      - assert (Hf : In a (List.filter
                             (fun c => negb (City.destroyed c))
                             (cities w))).
        { apply filter_In. split; [by apply list_elem_of_In|by rewrite Hd]. }
        destruct (List.filter _ (cities w)); [done|simpl; lia]. }
    rewrite decide_False by done.
    unfold random. simpl.
    destruct (floor_index (Math_random (rng w)) (length targets)
                (Hrand _) Hn) as [Hi0 Hi1].
    rewrite decide_True by done.
    destruct (lookup_lt_is_Some_2 targets _ Hi1) as [target Ht].
    rewrite Ht. eexists. split; [reflexivity|]. simpl.
    pose proof (Hrand (Datatypes.S (rng w))) as H2.
    pose proof (Hrand (Datatypes.S (Datatypes.S (Datatypes.S (rng w))))) as H4.
    unfold CANVAS_WIDTH, ROCKET_SPEED_MIN, ROCKET_SPEED_MAX.
    split_and!; try lra.
    apply Hin. by eapply list_elem_of_lookup_2.
Qed.

Lemma spawnRocket_aims_at_standing_witness :
  random_in_range half /\
  (Forall (fun b => Battery.destroyed b = true) (batteries fresh_round) ->
   Forall (fun c => City.destroyed c = true) (cities fresh_round) ->
   spawnRocket half fresh_round = Ok fresh_round) /\
  (Exists (fun b => Battery.destroyed b = false) (batteries fresh_round) \/
   Exists (fun c => City.destroyed c = false) (cities fresh_round) ->
   exists r,
     spawnRocket half fresh_round =
     Ok (set_rockets (rockets fresh_round ++ [r])
           (set_rng (5 + rng fresh_round) fresh_round)) /\
     Rocket.y r = 0 /\ 0 <= Rocket.x r < CANVAS_WIDTH /\
     ROCKET_SPEED_MIN <= Rocket.speed r < ROCKET_SPEED_MAX /\
     ((exists b, b ∈ batteries fresh_round /\ Battery.destroyed b = false /\
                 Rocket.targetX r = Battery.x b /\
                 Rocket.targetY r = Battery.y b) \/
      (exists c, c ∈ cities fresh_round /\ City.destroyed c = false /\
                 Rocket.targetX r = City.x c /\
                 Rocket.targetY r = City.y c))).
Proof.
  split; [exact half_in_range|].
  exact (spawnRocket_aims_at_standing half fresh_round half_in_range).
Defined.

Lemma spawnRocket_targets Math_random (w : State) :
  random_in_range Math_random ->
  exists w' spawned,
    spawnRocket Math_random w = Ok w' /\
    rockets w' = rockets w ++ spawned /\
    Forall (fun r => (Rocket.targetX r, Rocket.targetY r) ∈
                     battery_positions w ++ city_positions w) spawned.
Proof.
  intros Hrand. unfold spawnRocket.
  set (targets := _ ++ _).
  assert (Hin : forall t, t ∈ targets ->
                (fst t, snd t) ∈ battery_positions w ++ city_positions w).
  { intros t Ht. apply elem_of_app in Ht. apply elem_of_app.
    destruct Ht as [Ht|Ht];
      apply list_elem_of_fmap in Ht; destruct Ht as (a & -> & Ha);
      apply list_elem_of_In, filter_In in Ha; destruct Ha as [Ha _];
      apply list_elem_of_In in Ha; [left|right]; simpl;
      unfold battery_positions, city_positions;
      apply list_elem_of_fmap; by exists a. }
  destruct (decide (length targets = O)) as [Hn|Hn].
  { exists w, []. split_and!; try done. by rewrite app_nil_r. }
  unfold random. simpl.
  destruct (floor_index (Math_random (rng w)) (length targets)
              (Hrand _) Hn) as [Hi0 Hi1].
  rewrite decide_True by done.
  destruct (lookup_lt_is_Some_2 targets _ Hi1) as [target Ht].
  rewrite Ht. eexists _, [_]. split_and!; try done.
  constructor; [|constructor]. simpl.
  apply Hin. by eapply list_elem_of_lookup_2.
Qed.

Lemma spawn_rockets_targets Math_random (s w : State) :
  random_in_range Math_random ->
  exists w' spawned,
    spawn_rockets Math_random s w = Ok w' /\
    rockets w' = rockets w ++ spawned /\
    Forall (fun r => (Rocket.targetX r, Rocket.targetY r) ∈
                     battery_positions w ++ city_positions w) spawned.
Proof.
  intros Hrand. unfold spawn_rockets, random.
  destruct (decide (_ < _)).
  - destruct (spawnRocket_targets Math_random
                (set_rng (Datatypes.S (rng w)) w) Hrand)
      as (w' & spawned & -> & Hrs & Hall).
    by exists w', spawned.
  - exists (set_rng (Datatypes.S (rng w)) w), [].
    split_and!; try done. simpl. by rewrite app_nil_r.
Qed.

Lemma advance_target (r : Rocket.t) :
  Rocket.targetX (advance r) = Rocket.targetX r /\
  Rocket.targetY (advance r) = Rocket.targetY r.
Proof. done. Qed.

(** X12. With draws of [Math.random()] in range, every rocket of a
    reachable state is aimed at the place of one of the three batteries or
    six cities, whatever has been destroyed since it was spawned. *)
Theorem reachable_rockets_aimed Math_random (s : State) :
  random_in_range Math_random ->
  reachable Math_random s -> Forall aimed (rockets s).
Proof.
  intros Hrand Hreach. unfold aimed.
  induction Hreach as [|s _ _|s e s' Hs IH Hclick|s s' Hs IH Hupd].
  - constructor.
  - constructor.
  - by rewrite (click_rockets _ _ _ _ Hclick).
  - destruct (reachable_keeps _ _ Hs) as [[Lb Lc] _].
    revert Hupd. unfold update.
    destruct (decide (gameState s <> playing)); [by intros [= <-]|].
    destruct (update_rockets_spec Math_random s)
      as (w1 & -> & F1 & _ & _ & _ & _ & R1).
    destruct (update_missiles_spec Math_random w1)
      as (w2 & E2 & F2 & _ & R2 & _).
    destruct (update_explosions_spec w2) as (w3 & E3 & W3 & _ & _ & R3 & _).
    destruct (spawn_rockets_targets Math_random s w3 Hrand)
      as (w4 & spawned & E4 & R4 & N4).
    simpl. rewrite E2. simpl. rewrite E3. simpl. rewrite E4. simpl.
    intros E5. rewrite (check_win_loss_rockets _ _ _ E5), R4.
    apply Forall_app. split.
    + eapply Forall_impl; [exact R3|]. simpl. intros r' Hr'.
      rewrite R2 in Hr'. eapply Forall_forall in R1; [|exact Hr'].
      destruct R1 as (r & Hr & [->|[_ ->]]);
        eapply Forall_forall in IH; try exact Hr; done.
    + assert (Hpos : battery_positions w3 ++ city_positions w3 =
                     structure_positions).
      { unfold structure_positions. rewrite <- Lb, <- Lc.
        destruct F1 as (_ & _ & _ & B1 & C1).
        destruct F2 as (_ & _ & _ & B2 & C2).
        rewrite <- B1, <- C1, <- B2, <- C2.
        unfold battery_positions, city_positions.
        by rewrite <- W3. }
      by rewrite <- Hpos.
Qed.

Lemma eager_in_range : random_in_range eager.
Proof. intros n. unfold eager. lra. Qed.

Lemma first_wave_frame : update eager fresh_round = Ok first_wave.
Proof.
  unfold update, update_rockets, update_missiles, update_explosions, forEach.
  simpl. unfold spawn_rockets, random, eager. simpl. eval_decide.
  unfold spawnRocket, random. simpl.
  assert (Hi : Int_part (0 * INR 9) = 0%Z).
  { symmetry. apply Int_part_spec. rewrite Rmult_0_l. simpl. lra. }
  rewrite Hi. simpl.
  unfold check_win_loss. simpl. eval_decide. simpl.
  reflexivity.
Qed.

Lemma first_wave_reachable : reachable eager first_wave.
Proof.
  apply (reachable_update eager fresh_round);
    [apply reachable_startGame, reachable_initial|exact first_wave_frame].
Qed.

Lemma reachable_rockets_aimed_witness :
  random_in_range eager /\ reachable eager first_wave /\
  Forall aimed (rockets first_wave).
Proof.
  split; [exact eager_in_range|]. split; [exact first_wave_reachable|].
  exact (reachable_rockets_aimed eager first_wave eager_in_range
           first_wave_reachable).
Defined.

(** ** Drawing *)

Lemma update_explosions_alive (w : State) :
  exists w',
    update_explosions w = Ok w' /\
    Forall (fun e' => exists e, e ∈ explosions w /\
              (e' = e \/ (e' = fst (grow e) /\ snd (grow e) = false)))
           (explosions w').
Proof.
  unfold update_explosions. rewrite forEach_eq.
  destruct (forEach_struct_inv update_explosion (fun _ => True)
    (fun e e' => e' = fst (grow e) /\ snd (grow e) = false))
    with (l := explosions w) (s := w)
    as (es & w' & -> & _ & _ & Hall); [|done|by eexists].
  intros exp w0 _.
  destruct (update_explosion_spec exp w0) as (w1 & -> & _).
  eexists _, w1. split; [done|]. split; [done|].
  destruct (snd (grow exp)); [done|]. by intros x' [= <-].
Qed.

Lemma grow_alive (e : Explosion.t) :
  0 < Explosion.radius e -> snd (grow e) = false ->
  0 < Explosion.radius (fst (grow e)).
Proof.
  unfold grow. destruct (Explosion.growing e); simpl.
  - intros Hr _. destruct (decide _); simpl;
      unfold EXPLOSION_GROWTH_RATE; lra.
  - intros _ Hrm. apply bool_decide_eq_false in Hrm. lra.
Qed.

Lemma update_alive Math_random (s s' : State) :
  update Math_random s = Ok s' ->
  Forall (fun e => 0 < Explosion.radius e) (explosions s) ->
  Forall (fun e => 0 < Explosion.radius e) (explosions s').
Proof.
  unfold update. destruct (decide (gameState s <> playing)).
  { by intros [= <-]. }
  destruct (update_rockets_spec Math_random s)
    as (w1 & -> & _ & _ & _ & (new1 & X1 & N1) & _).
  destruct (update_missiles_spec Math_random w1)
    as (w2 & E2 & _ & _ & _ & _ & _ & (new2 & X2 & N2) & _).
  destruct (update_explosions_alive w2) as (w3 & E3 & X3).
  simpl. rewrite E2. simpl. rewrite E3. simpl.
  destruct (spawn_rockets Math_random s w3) as [w4|] eqn:E4; simpl; [|done].
  intros E5 Hok.
  destruct (spawn_rockets_frame _ _ _ _ E4) as (X4 & _).
  destruct (check_win_loss_frame _ _ _ E5) as (X5 & _).
  rewrite X5, X4.
  eapply Forall_impl; [exact X3|]. simpl. intros e' (e & He & Hcase).
  assert (Hok2 : 0 < Explosion.radius e).
  { rewrite X2, X1 in He. apply elem_of_app in He.
    destruct He as [He|He]; [apply elem_of_app in He; destruct He as [He|He]|].
    - eapply Forall_forall in Hok; [exact Hok|done].
    - eapply Forall_forall in N1; [|exact He]. destruct N1 as [-> _]. lra.
    - eapply Forall_forall in N2; [|exact He]. destruct N2 as [-> _]. lra. }
  destruct Hcase as [->|[-> Hkept]]; [done|by apply grow_alive].
Qed.

(** Every explosion in the store of a reachable state has a radius above
    0: a visit that leaves 0 or less splices it out. *)
Lemma reachable_alive Math_random (s : State) :
  reachable Math_random s ->
  Forall (fun e => 0 < Explosion.radius e) (explosions s).
Proof.
  induction 1 as [|s _ _|s e s' _ IH Hclick|s s' _ IH Hupd].
  - constructor.
  - constructor.
  - destruct (click_keeps _ _ _ _ Hclick) as (_ & _ & ->). done.
  - by eapply update_alive.
Qed.

Ltac check_sizes :=
  repeat first
    [ apply List.Forall_nil
    | apply List.Forall_cons;
      [ simpl; unfold CANVAS_WIDTH, CANVAS_HEIGHT;
        first [ exact I | lra | split; lra ] | ] ].

Lemma draw_each_ok {A : Type} (f : A -> Result (list Canvas.Cmd))
  (P : A -> Prop) (l : list A) :
  (forall a, P a -> exists cmds, f a = Ok cmds /\ Forall sizes_ok cmds) ->
  Forall P l ->
  exists cmds, draw_each f l = Ok cmds /\ Forall sizes_ok cmds.
Proof.
  intros Hf. induction 1 as [|a l Ha _ (rest & Hrest & Hok)]; simpl.
  - by exists [].
  - destruct (Hf a Ha) as (cmds & -> & Hcmds). simpl. rewrite Hrest. simpl.
    eexists. split; [done|]. by apply Forall_app.
Qed.

Lemma draw_battery_ok (b : Battery.t) :
  whole_ammo b /\ 0 < Battery.maxAmmo b ->
  exists cmds, draw_battery b = Ok cmds /\ Forall sizes_ok cmds.
Proof.
  intros [[(k & Hk & Hle) _] Hmax]. unfold draw_battery.
  destruct (Battery.destroyed b); simpl.
  - eexists. split; [done|]. check_sizes.
  - rewrite div_ok by lra. simpl. eexists. split; [done|].
    pose proof (pos_INR k) as Hpos.
    assert (Hbar : 0 <= 30 * (Battery.ammo b / Battery.maxAmmo b)).
    { rewrite Hk. apply Rmult_le_pos; [lra|].
      apply Rmult_le_pos; [done|].
      apply Rlt_le, Rinv_0_lt_compat, Hmax. }
    check_sizes.
Qed.

Lemma capacities_positive (bs : list Battery.t) :
  map Battery.maxAmmo bs = [20; 40; 20] ->
  Forall (fun b => 0 < Battery.maxAmmo b) bs.
Proof.
  destruct bs as [|b0 [|b1 [|b2 [|]]]]; try done.
  intros [= H0 H1 H2]. repeat constructor; lra.
Qed.

Lemma draw_ok Math_random (s : State) :
  reachable Math_random s ->
  exists cmds, draw s = Ok cmds /\ Forall sizes_ok cmds.
Proof.
  intros Hreach.
  destruct (reachable_whole _ _ Hreach) as [Hwhole Hcap].
  apply capacities_positive in Hcap.
  pose proof (reachable_alive _ _ Hreach) as Halive.
  unfold draw.
  destruct (draw_each_ok draw_rocket (fun _ => True) (rockets s))
    as (rs & -> & Hrs).
  { intros r _. eexists. split; [done|]. check_sizes. }
  { by apply Forall_true. }
  destruct (draw_each_ok draw_missile (fun _ => True) (missiles s))
    as (ms & -> & Hms).
  { intros m _. eexists. split; [done|]. check_sizes. }
  { by apply Forall_true. }
  destruct (draw_each_ok draw_explosion
              (fun e => 0 < Explosion.radius e) (explosions s))
    as (es & -> & Hes); [|done|].
  { intros e He. eexists. split; [done|]. check_sizes. }
  destruct (draw_each_ok draw_battery
              (fun b => whole_ammo b /\ 0 < Battery.maxAmmo b) (batteries s))
    as (bs & -> & Hbs).
  { apply draw_battery_ok. }
  { apply Forall_and. by split. }
  destruct (draw_each_ok draw_city (fun _ => True) (cities s))
    as (cs & -> & Hcs).
  { intros c _. unfold draw_city. destruct (City.destroyed c); simpl;
      (eexists; split; [done|]); check_sizes. }
  { by apply Forall_true. }
  simpl. eexists. split; [done|].
  check_sizes. repeat (apply Forall_app; split); done.
Qed.

(** X14. In every reachable state [draw] runs to its end: the ammo bar of
    a battery never divides by a capacity of zero, and no rectangle, arc or
    gradient is handed a negative size, the radius of a stored explosion
    being above 0. *)
Theorem draw_sizes_never_negative Math_random (s : State) :
  reachable Math_random s ->
  Forall (fun e => 0 < Explosion.radius e) (explosions s) /\
  exists cmds, draw s = Ok cmds /\ Forall sizes_ok cmds.
Proof.
  intros Hreach. split; [by eapply reachable_alive|by eapply draw_ok].
Qed.

Lemma draw_sizes_never_negative_witness :
  reachable half (glow 41 false 28) /\
  Forall (fun e => 0 < Explosion.radius e) (explosions (glow 41 false 28)) /\
  exists cmds, draw (glow 41 false 28) = Ok cmds /\ Forall sizes_ok cmds.
Proof.
  split; [exact peak_reachable|].
  exact (draw_sizes_never_negative half (glow 41 false 28) peak_reachable).
Defined.

(** X15. With draws of [Math.random()] in range, an animation frame of a
    reachable state never throws: [update] returns, [draw] runs to its end
    on the stores it left, and the state after the frame is reachable, so
    the next frame does not throw either. *)
Theorem loop_never_throws Math_random (s : State) :
  random_in_range Math_random ->
  reachable Math_random s ->
  exists s' cmds,
    loop Math_random s = Ok (s', cmds) /\
    update Math_random s = Ok s' /\ draw s' = Ok cmds /\
    reachable Math_random s' /\ Forall sizes_ok cmds.
Proof.
  intros Hrand Hreach.
  assert (Hupd : exists s', update Math_random s = Ok s').
  { destruct (decide (gameState s = playing)) as [Hp|Hp].
    - destruct (update_playing_spec Math_random s Hrand) as
        (_ & _ & _ & s' & _ & _ & _ & E & _); [|done|by exists s'].
      by rewrite (reachable_batteries _ _ Hreach).
    - exists s. unfold update. by rewrite decide_True. }
  destruct Hupd as [s' Hupd].
  assert (Hreach' : reachable Math_random s')
    by (by eapply reachable_update).
  destruct (draw_ok _ _ Hreach') as (cmds & Hdraw & Hok).
  exists s', cmds. unfold loop. rewrite Hupd. simpl. rewrite Hdraw.
  by split_and!.
Qed.

Lemma loop_never_throws_witness :
  random_in_range eager /\ reachable eager fresh_round /\
  exists s' cmds,
    loop eager fresh_round = Ok (s', cmds) /\
    update eager fresh_round = Ok s' /\ draw s' = Ok cmds /\
    reachable eager s' /\ Forall sizes_ok cmds.
Proof.
  assert (Hr : reachable eager fresh_round)
    by apply reachable_startGame, reachable_initial.
  split; [exact eager_in_range|]. split; [exact Hr|].
  exact (loop_never_throws eager fresh_round eager_in_range Hr).
Defined.

(** ** Steps 1 and 2 when nothing arrives *)

Lemma forEach_map {A S : Type} (cb : A -> S -> Result (option A * S))
  (f : A -> A) (l : list A) (s : S) :
  Forall (fun x => cb x s = Ok (Some (f x), s)) l ->
  forEach cb l s = Ok (map f l, s).
Proof.
  rewrite forEach_eq.
  induction 1 as [|x l Hx _ IH]; simpl; [done|].
  rewrite Hx. simpl. by rewrite IH.
Qed.

(** X17. When no rocket is within 2 units of its target, step 1 moves
    every rocket of the store, removes none and changes nothing else: no
    visit is skipped. *)
Theorem rockets_in_flight_all_advance Math_random (w : State) :
  Forall (fun r => ~ rocket_distance r < 2) (rockets w) ->
  update_rockets Math_random w =
  Ok (set_rockets (map advance (rockets w)) w).
Proof.
  intros Hall. unfold update_rockets.
  rewrite (forEach_map (update_rocket Math_random) advance); [done|].
  eapply Forall_impl; [exact Hall|]. simpl.
  intros r Hr. by apply update_rocket_flight.
Qed.

Lemma rockets_in_flight_all_advance_witness :
  Forall (fun r => ~ rocket_distance r < 2) (rockets standoff) /\
  update_rockets half standoff =
  Ok (set_rockets (map advance (rockets standoff)) standoff).
Proof.
  assert (H : Forall (fun r => ~ rocket_distance r < 2) (rockets standoff)).
  { constructor; [|constructor]. rewrite diving_distance. lra. }
  split; [exact H|].
  exact (rockets_in_flight_all_advance half standoff H).
Defined.

(** X18. When every missile, once aimed at the rocket nearest to it, is 7
    units or more from that point, step 2 moves every missile of the store
    towards it, removes none and changes nothing else. *)
Theorem missiles_in_flight_all_fly Math_random (w : State) :
  Forall (fun m => ~ missile_distance (reaim (rockets w) m) < MISSILE_SPEED)
         (missiles w) ->
  update_missiles Math_random w =
  Ok (set_missiles (map (fun m => fly (reaim (rockets w) m)) (missiles w)) w).
Proof.
  intros Hall. unfold update_missiles.
  rewrite (forEach_map (update_missile Math_random)
             (fun m => fly (reaim (rockets w) m))); [done|].
  eapply Forall_impl; [exact Hall|]. simpl.
  intros m Hm. by apply update_missile_flight.
Qed.

Lemma missiles_in_flight_all_fly_witness :
  Forall (fun m => ~ missile_distance (reaim (rockets after_center_click) m)
                     < MISSILE_SPEED)
         (missiles after_center_click) /\
  update_missiles half after_center_click =
  Ok (set_missiles
        (map (fun m => fly (reaim (rockets after_center_click) m))
           (missiles after_center_click))
        after_center_click).
Proof.
  assert (H : Forall
    (fun m => ~ missile_distance (reaim (rockets after_center_click) m)
                < MISSILE_SPEED)
    (missiles after_center_click)).
  { constructor; [|constructor].
    unfold missile_distance, reaim. simpl.
    unfold CANVAS_WIDTH, CANVAS_HEIGHT, MISSILE_SPEED.
    apply sqrt_ge_bound; lra. }
  split; [exact H|].
  exact (missiles_in_flight_all_fly half after_center_click H).
Defined.

(** ** The structure a rocket lands on *)

Lemma hit_self (x y : number) : hit x y x y = true.
Proof.
  unfold hit. replace (x - x) with 0 by lra. replace (y - y) with 0 by lra.
  rewrite Rabs_R0. rewrite !bool_decide_eq_true_2 by lra. done.
Qed.

(** X13. A rocket aimed at the place of a battery or city, as every
    rocket of a round is, never lands on empty ground: after its impact the
    battery or city standing at its target is destroyed, a battery with no
    ammo left. *)
Theorem aimed_impact_destroys Math_random (r : Rocket.t) (w : State) :
  standard_layout w -> aimed r -> rocket_distance r < 2 ->
  exists w',
    update_rocket Math_random r w = Ok (None, w') /\
    ((exists b, b ∈ batteries w' /\
                Battery.x b = Rocket.targetX r /\
                Battery.y b = Rocket.targetY r /\
                Battery.destroyed b = true /\ Battery.ammo b = 0) \/
     (exists c, c ∈ cities w' /\
                City.x c = Rocket.targetX r /\
                City.y c = Rocket.targetY r /\
                City.destroyed c = true)).
Proof.
  intros [Lb Lc] Ha Hd. exists (impact Math_random r w).
  split; [by apply update_rocket_impact|].
  unfold aimed, structure_positions in Ha. rewrite <- Lb, <- Lc in Ha.
  apply elem_of_app in Ha. destruct Ha as [Ha|Ha];
    apply list_elem_of_fmap in Ha; destruct Ha as (a & [= Hx Hy] & Ha).
  - left. exists (Battery.destroy a). split_and!; try done.
    unfold impact. simpl. apply list_elem_of_fmap. exists a.
    split; [|done]. by rewrite Hx, Hy, hit_self.
  - right. exists (City.destroy a). split_and!; try done.
    unfold impact. simpl. apply list_elem_of_fmap. exists a.
    split; [|done]. by rewrite Hx, Hy, hit_self.
Qed.

Lemma aimed_impact_destroys_witness :
  standard_layout fresh_round /\ aimed landing /\
  rocket_distance landing < 2 /\
  exists w',
    update_rocket half landing fresh_round = Ok (None, w') /\
    ((exists b, b ∈ batteries w' /\
                Battery.x b = Rocket.targetX landing /\
                Battery.y b = Rocket.targetY landing /\
                Battery.destroyed b = true /\ Battery.ammo b = 0) \/
     (exists c, c ∈ cities w' /\
                City.x c = Rocket.targetX landing /\
                City.y c = Rocket.targetY landing /\
                City.destroyed c = true)).
Proof.
  assert (H1 : standard_layout fresh_round) by (by split).
  assert (H2 : aimed landing).
  { unfold aimed, structure_positions. simpl.
    replace 580 with (CANVAS_HEIGHT - 20) by (unfold CANVAS_HEIGHT; lra).
    apply list_elem_of_here. }
  assert (H3 : rocket_distance landing < 2).
  { unfold rocket_distance. simpl. apply sqrt_lt_bound; lra. }
  split; [exact H1|]. split; [exact H2|]. split; [exact H3|].
  exact (aimed_impact_destroys half landing fresh_round H1 H2 H3).
Defined.

(** ** The ammo read-out *)

(** X16. The ammo read-out of the display is set by step 5 of a frame and
    by nothing else.  In a round in which the read-out shows what the
    batteries hold, a click that makes a battery fire leaves it showing the
    ammo before the shot; the next frame brings it back in step. *)
Theorem ammo_readout_lags_a_click Math_random (e : Click) (s s1 : State) :
  reachable Math_random s -> gameState s = playing ->
  Exists can_fire (batteries s) ->
  ammo_of (batteries s) = Some (ammo s) ->
  handleCanvasClick Math_random e s = Ok s1 ->
  ammo s1 = ammo s /\ ammo_of (batteries s1) <> Some (ammo s1) /\
  forall s2, update Math_random s1 = Ok s2 ->
             ammo_of (batteries s2) = Some (ammo s2).
Proof.
  intros Hreach Hp Hex Hread Hclick.
  destruct (click_cells _ _ _ _ Hclick) as (Hp1 & _).
  assert (Hframe : forall s2, update Math_random s1 = Ok s2 ->
                              ammo_of (batteries s2) = Some (ammo s2)).
  { intros s2 Hupd.
    destruct (update_cells Math_random s1 s2) as (_ & _ & H); try done.
    congruence. }
  pose proof (reachable_batteries _ _ Hreach) as Hlen.
  revert Hclick. unfold handleCanvasClick.
  rewrite decide_False by (by rewrite Hp; intros H; apply H).
  unfold div. destruct (decide (rect_width e = 0)); [done|].
  destruct (decide (rect_height e = 0)); [done|]. simpl.
  set (x := (clientX e - rect_left e) * (CANVAS_WIDTH / rect_width e)).
  intros [= <-]. revert Hframe. unfold fire, random.
  pose proof (find_nearest_battery_spec x (batteries s)) as Hscan.
  destruct (find_nearest_battery x (batteries s)) as [[i b]|].
  - destruct Hscan as (Hi & _ & _). simpl. intros Hframe.
    split; [done|]. split; [|done].
    rewrite <- Hread. revert Hi. unfold ammo_of.
    destruct (batteries s) as [|b0 [|b1 [|b2 [|]]]]; try done.
    destruct i as [|[|[|i]]]; simpl; try done;
      intros [= ->]; intros [= Heq]; lra.
  - apply Exists_exists in Hex. destruct Hex as (b & Hb & Hfire).
    eapply Forall_forall in Hscan; [|exact Hb]. done.
Qed.

Lemma ammo_readout_lags_a_click_witness :
  reachable half fresh_round /\ gameState fresh_round = playing /\
  Exists can_fire (batteries fresh_round) /\
  ammo_of (batteries fresh_round) = Some (ammo fresh_round) /\
  handleCanvasClick half battery_click fresh_round = Ok point_blank /\
  ammo point_blank = ammo fresh_round /\
  ammo_of (batteries point_blank) <> Some (ammo point_blank) /\
  forall s2, update half point_blank = Ok s2 ->
             ammo_of (batteries s2) = Some (ammo s2).
Proof.
  assert (H1 : reachable half fresh_round) by exact fresh_round_reachable.
  assert (H2 : gameState fresh_round = playing) by reflexivity.
  assert (H3 : Exists can_fire (batteries fresh_round)).
  { apply Exists_cons_hd. split; [reflexivity|simpl; lra]. }
  assert (H4 : ammo_of (batteries fresh_round) = Some (ammo fresh_round))
    by reflexivity.
  split; [exact H1|]. split; [exact H2|]. split; [exact H3|].
  split; [exact H4|]. split; [exact click_on_battery|].
  exact (ammo_readout_lags_a_click half battery_click fresh_round point_blank
           H1 H2 H3 H4 click_on_battery).
Defined.

(** ** What a frame adds *)

(** X19. A frame of the playing phase adds [SCORE_PER_ROCKET] to the score
    for each rocket that step 3 removes, and nothing else: the rockets that
    landed in step 1 score nothing. *)
Theorem frame_scores_rockets_shot Math_random (s s' : State) :
  gameState s = playing -> update Math_random s = Ok s' ->
  exists w1 w2 w3,
    update_rockets Math_random s = Ok w1 /\
    update_missiles Math_random w1 = Ok w2 /\
    update_explosions w2 = Ok w3 /\
    score w1 = score s /\ rockets w2 = rockets w1 /\
    (length (rockets w3) <= length (rockets w1))%nat /\
    score s' =
      score s +
      SCORE_PER_ROCKET * INR (length (rockets w1) - length (rockets w3)).
Proof.
  intros Hp. unfold update.
  rewrite decide_False by (by rewrite Hp; intros H; apply H).
  destruct (update_rockets_spec Math_random s)
    as (w1 & E1 & _ & S1 & _).
  destruct (update_missiles_spec Math_random w1)
    as (w2 & E2 & _ & S2 & R2 & _).
  destruct (update_explosions_spec w2) as (w3 & E3 & _ & S3 & L3 & _).
  rewrite E1. simpl. rewrite E2. simpl. rewrite E3. simpl.
  destruct (spawn_rockets Math_random s w3) as [w4|] eqn:E4; simpl; [|done].
  intros E5.
  destruct (spawn_rockets_cells _ _ _ _ E4) as (_ & S4 & _).
  destruct (check_win_loss_cells _ _ _ E5) as (_ & S5 & _).
  exists w1, w2, w3. rewrite <- R2. split_and!; try done.
  rewrite minus_INR by done. rewrite S5, S4, <- S1, <- S2.
  unfold SCORE_PER_ROCKET in *. lra.
Qed.

Lemma frame_scores_rockets_shot_witness :
  gameState match_point = playing /\
  exists s', update half match_point = Ok s' /\
  exists w1 w2 w3,
    update_rockets half match_point = Ok w1 /\
    update_missiles half w1 = Ok w2 /\
    update_explosions w2 = Ok w3 /\
    score w1 = score match_point /\ rockets w2 = rockets w1 /\
    (length (rockets w3) <= length (rockets w1))%nat /\
    score s' =
      score match_point +
      SCORE_PER_ROCKET * INR (length (rockets w1) - length (rockets w3)).
Proof.
  split; [reflexivity|].
  destruct (update_playing_spec half match_point half_in_range)
    as (_ & _ & _ & s' & _ & _ & _ & E & _);
    [simpl; lia|reflexivity|].
  exists s'. split; [exact E|].
  exact (frame_scores_rockets_shot half match_point s' eq_refl E).
Defined.

(** X20. With draws of [Math.random()] in range, a frame adds at most one
    rocket to the store and never adds a missile. *)
Theorem frame_adds_at_most_one_rocket Math_random (s s' : State) :
  random_in_range Math_random ->
  update Math_random s = Ok s' ->
  (length (rockets s') <= length (rockets s) + 1)%nat /\
  (length (missiles s') <= length (missiles s))%nat.
Proof.
  intros Hrand. unfold update.
  destruct (decide (gameState s <> playing)); [intros [= <-]; lia|].
  destruct (update_rockets_spec Math_random s)
    as (w1 & -> & _ & _ & M1 & _ & L1 & _).
  destruct (update_missiles_spec Math_random w1)
    as (w2 & E2 & _ & _ & R2 & _ & _ & _ & L2).
  destruct (update_explosions_spec w2) as (w3 & E3 & F3 & _ & L3 & _).
  destruct (spawn_rockets_spec Math_random s w3 Hrand)
    as (w4 & spawned & E4 & F4 & R4 & N4 & _).
  simpl. rewrite E2. simpl. rewrite E3. simpl. rewrite E4. simpl.
  intros E5.
  destruct (check_win_loss_cells _ _ _ E5) as (_ & _ & M5 & _).
  rewrite (check_win_loss_rockets _ _ _ E5), R4, length_app, M5.
  fields_of F3. fields_of F4. split; [|congruence].
  rewrite R2 in L3. lia.
Qed.

Lemma frame_adds_at_most_one_rocket_witness :
  random_in_range eager /\
  update eager fresh_round = Ok first_wave /\
  (length (rockets first_wave) <= length (rockets fresh_round) + 1)%nat /\
  (length (missiles first_wave) <= length (missiles fresh_round))%nat.
Proof.
  split; [exact eager_in_range|]. split; [exact first_wave_frame|].
  exact (frame_adds_at_most_one_rocket eager fresh_round first_wave
           eager_in_range first_wave_frame).
Defined.

(** ** A new round *)

(** X21. Whatever the state [startGame] is called in, with draws of
    [Math.random()] in range the first frame after it returns, and leaves a
    round in the playing phase with a score of 0, the three batteries and
    six cities standing with full ammo, the read-out showing 20, 40 and 20
    whatever it showed before, no missile or explosion, and at most one
    rocket, at the top edge. *)
Theorem first_frame_of_a_round Math_random (s : State) :
  random_in_range Math_random ->
  exists s',
    update Math_random (startGame s) = Ok s' /\
    gameState s' = playing /\ score s' = 0 /\
    ammo s' = mkAmmo 20 40 20 /\
    batteries s' = initial_batteries /\ cities s' = initial_cities /\
    missiles s' = [] /\ explosions s' = [] /\
    (length (rockets s') <= 1)%nat /\
    Forall (fun r => Rocket.y r = 0) (rockets s').
Proof.
  intros Hrand. unfold update, update_rockets, update_missiles,
    update_explosions, forEach. simpl.
  set (w3 := set_explosions [] (set_missiles [] (set_rockets [] (startGame s)))).
  destruct (spawn_rockets_spec Math_random (startGame s) w3 Hrand)
    as (w4 & spawned & -> & F4 & R4 & N4 & Y4).
  simpl. fields_of F4.
  destruct (check_win_loss_spec (startGame s) w4)
    as (s' & E5 & G5 & _ & S5 & R5 & M5 & X5 & B5 & C5 & _);
    [rewrite H5; simpl; lia|].
  destruct (check_win_loss_cells _ _ _ E5) as (_ & _ & _ & A5).
  exists s'. split; [exact E5|].
  rewrite G5, S5, R5, M5, X5, B5, C5, R4.
  rewrite B5, H5 in A5. injection A5 as <-.
  split_and!; try done.
  - unfold phase_after. rewrite H5. simpl.
    by rewrite decide_False by (unfold WIN_SCORE; lra).
  - eapply Forall_impl; [exact Y4|]. by intros r [_ ?].
Qed.

Lemma first_frame_of_a_round_witness :
  random_in_range eager /\
  exists s',
    update eager (startGame last_stand) = Ok s' /\
    gameState s' = playing /\ score s' = 0 /\
    ammo s' = mkAmmo 20 40 20 /\
    batteries s' = initial_batteries /\ cities s' = initial_cities /\
    missiles s' = [] /\ explosions s' = [] /\
    (length (rockets s') <= 1)%nat /\
    Forall (fun r => Rocket.y r = 0) (rockets s').
Proof.
  split; [exact eager_in_range|].
  exact (first_frame_of_a_round eager last_stand eager_in_range).
Defined.
